(** * Verification of the mux application supervisor (e4mi/mux)

    Shallow embedding of the Go front door in [src/unnamed/part_000]
    (the [appInfo] version with a file watcher; its [start], [stopApp],
    [startWatcher], [matchInverted], [handler] and [program.run]) and of
    the older [src/main.go] where it shares the code.

    Go strings are byte strings; they are modelled as [list ascii]. *)

From Stdlib Require Import Ascii String List ZArith Lia.
From stdpp Require Import base gmap strings list.
Import ListNotations.
Open Scope list_scope.

(** ** Go strings *)

Abbreviation gostring := (list ascii).

(** Literal helper: a Rocq string literal as a Go byte string. *)
Definition str (s : string) : gostring := list_ascii_of_string s.

Definition colon : ascii := ":".
Definition dot : ascii := ".".
Definition slash : ascii := "/".

(** [strings.HasPrefix] *)
Definition HasPrefix (s pre : gostring) : bool :=
  bool_decide (firstn (length pre) s = pre).

(** [strings.HasSuffix] *)
Definition HasSuffix (s suf : gostring) : bool :=
  (length suf <=? length s) && bool_decide (skipn (length s - length suf) s = suf).

(** [strings.TrimSuffix]: [s[:len(s)-len(suffix)]] when [s] has the suffix. *)
Definition TrimSuffix (s suf : gostring) : gostring :=
  if HasSuffix s suf then firstn (length s - length suf) s else s.

(** [strings.Split(s, sep)] for a one-byte separator [sep]. *)
Fixpoint Split (s : gostring) (sep : ascii) : list gostring :=
  match s with
  | [] => [[]]
  | x :: s' =>
      let parts := Split s' sep in
      if bool_decide (x = sep) then [] :: parts
      else match parts with
           | p0 :: ps => (x :: p0) :: ps
           | [] => [[x]]
           end
  end.

(** Indexing [[0]]; [Split] with a non-empty separator never returns an
    empty slice, so the default is never used. *)
Definition first_elem (l : list gostring) : gostring :=
  match l with x :: _ => x | [] => [] end.

(** ** filepath.Clean and filepath.Join (Unix separator) *)

(** Go's [Clean] is a byte loop; it computes, for a path split at '/',
    the lexical result of dropping empty and [.] elements and resolving
    [..] against the previous element (a rooted path stays at the root,
    a relative one keeps leading [..]). *)
Fixpoint clean_elems (rooted : bool) (stk : list gostring) (els : list gostring)
  : list gostring :=
  match els with
  | [] => stk
  | e :: es =>
      if bool_decide (e = []) || bool_decide (e = [dot]) then clean_elems rooted stk es
      else if bool_decide (e = [dot; dot]) then
        match stk with
        | top :: rest =>
            if bool_decide (top = [dot; dot]) then clean_elems rooted ([dot; dot] :: stk) es
            else clean_elems rooted rest es
        | [] => if rooted then clean_elems rooted [] es
                else clean_elems rooted [[dot; dot]] es
        end
      else clean_elems rooted (e :: stk) es
  end.

Fixpoint join_with (sep : ascii) (l : list gostring) : gostring :=
  match l with
  | [] => []
  | [x] => x
  | x :: xs => x ++ sep :: join_with sep xs
  end.

Definition Clean (path : gostring) : gostring :=
  let rooted := HasPrefix path [slash] in
  let body := join_with slash (rev (clean_elems rooted [] (Split path slash))) in
  if rooted then slash :: body
  else match body with [] => [dot] | _ => body end.

(** [filepath.Join(a, b)]: empty elements are skipped, the rest joined
    with '/' and cleaned. *)
Definition Join (a b : gostring) : gostring :=
  match a, b with
  | [], [] => []
  | [], _ => Clean b
  | _, [] => Clean a
  | _, _ => Clean (a ++ slash :: b)
  end.

(** ** Host routing (handler, part_000 lines 254-258; main.go 85-89) *)

(** [name := TrimSuffix(TrimSuffix(Split(r.Host, ":")[0], domain), ".")];
    an empty name becomes ["www"]. *)
Definition routeName (domain host : gostring) : gostring :=
  let name := TrimSuffix (TrimSuffix (first_elem (Split host colon)) domain) [dot] in
  if bool_decide (name = []) then str "www" else name.

(** [dir := filepath.Join(root, name)] *)
Definition appDir (root domain host : gostring) : gostring :=
  Join root (routeName domain host).

(** ** Errors returned by [start] *)

(** The [error] values [start] can return: the [os.Open] error on the
    Procfile, [fmt.Errorf("NO web: in %s/Procfile", dir)], the error of
    [cmd.Start()] and [fmt.Errorf("TIMEOUT %s", addr)] of [waitPort]. *)
Inductive goerr :=
| ErrOpen (path : gostring)
| ErrNoWeb (dir : gostring)
| ErrCmdStart
| ErrTimeout (port : Z).

Global Instance goerr_eq_dec : EqDecision goerr.
Proof. solve_decision. Defined.

(** The spec's error kinds: NoWebEntry is "Procfile missing or has no
    web: line"; StartupTimeout is the readiness probe's deadline. *)
Definition is_NoWebEntry (e : goerr) : bool :=
  match e with ErrOpen _ | ErrNoWeb _ => true | _ => false end.
Definition is_StartupTimeout (e : goerr) : bool :=
  match e with ErrTimeout _ => true | _ => false end.

(** ** bufio.Scanner with ScanLines *)

Definition newline : ascii := Ascii.ascii_of_nat 10.
Definition cr : ascii := Ascii.ascii_of_nat 13.

(** [bufio.MaxScanTokenSize] *)
Definition MaxScanTokenSize : nat := 2 ^ 16.

(** The raw lines ScanLines cuts: the text between newlines, plus the
    final unterminated piece when it is non-empty. *)
Definition raw_lines (data : gostring) : list gostring :=
  match rev (Split data newline) with
  | [] :: rest => rev rest
  | _ => Split data newline
  end.

(** [dropCR]: drop one trailing carriage return. *)
Fixpoint dropCR (l : gostring) : gostring :=
  match l with
  | [] => []
  | [x] => if bool_decide (x = cr) then [] else [x]
  | x :: l' => x :: dropCR l'
  end.

(** The tokens [for s.Scan()] yields.  The buffer grows to
    [MaxScanTokenSize] bytes; a line (with its newline) that does not fit
    ends the scan with [ErrTooLong], which the caller never inspects. *)
Fixpoint scan_tokens (ls : list gostring) : list gostring :=
  match ls with
  | [] => []
  | l :: rest =>
      if length l <? MaxScanTokenSize then dropCR l :: scan_tokens rest else []
  end.

Definition ScanLines (data : gostring) : list gostring := scan_tokens (raw_lines data).

(** ** strings.TrimSpace *)

Definition byte (n : nat) : ascii := Ascii.ascii_of_nat n.

(** UTF-8 encodings of the runes [unicode.IsSpace] accepts: ASCII
    '\t' '\n' '\v' '\f' '\r' ' ', U+0085, U+00A0, U+1680,
    U+2000..U+200A, U+2028, U+2029, U+202F, U+205F, U+3000. *)
Definition space_encodings : list gostring :=
  [[byte 9]; [byte 10]; [byte 11]; [byte 12]; [byte 13]; [byte 32];
   [byte 194; byte 133]; [byte 194; byte 160]; [byte 225; byte 154; byte 128]] ++
  map (fun k => [byte 226; byte 128; byte (128 + k)]) (seq 0 11) ++
  [[byte 226; byte 128; byte 168]; [byte 226; byte 128; byte 169];
   [byte 226; byte 128; byte 175]; [byte 226; byte 129; byte 159];
   [byte 227; byte 128; byte 128]].

Fixpoint trim_left_n (fuel : nat) (s : gostring) : gostring :=
  match fuel with
  | O => s
  | S f =>
      match List.find (fun e => HasPrefix s e) space_encodings with
      | Some e => trim_left_n f (skipn (length e) s)
      | None => s
      end
  end.

Fixpoint trim_right_n (fuel : nat) (s : gostring) : gostring :=
  match fuel with
  | O => s
  | S f =>
      match List.find (fun e => HasSuffix s e) space_encodings with
      | Some e => trim_right_n f (firstn (length s - length e) s)
      | None => s
      end
  end.

(** [strings.TrimSpace]: every step removes at least one byte, so
    [length s] steps suffice. *)
Definition TrimSpace (s : gostring) : gostring :=
  trim_right_n (length s) (trim_left_n (length s) s).

(** ** Procfile reader (start, part_000 lines 146-162; main.go 53-68) *)

(** The scan loop: the first line with prefix [web:] sets [cmdStr] to
    [TrimSpace(s.Text()[4:])] and breaks. *)
Fixpoint scan_web (toks : list gostring) : gostring :=
  match toks with
  | [] => []
  | l :: rest => if HasPrefix l (str "web:") then TrimSpace (skipn 4 l) else scan_web rest
  end.

(** [procfile] is the file's content, [None] when [os.Open] fails. *)
Definition readProcfile (dir : gostring) (procfile : option gostring) : goerr + gostring :=
  match procfile with
  | None => inl (ErrOpen (Join dir (str "Procfile")))
  | Some data =>
      let cmdStr := scan_web (ScanLines data) in
      if bool_decide (cmdStr = []) then inl (ErrNoWeb dir) else inr cmdStr
  end.

Definition star : ascii := "*".

(** ** Go regular expressions (package regexp, Perl syntax) *)

(** Runes: [utf8.DecodeRuneInString].  A step returns the rune, the rest
    of the string and whether the bytes were a valid encoding; an invalid
    byte decodes as [RuneError] and takes one byte. *)
Definition RuneError : Z := 65533.
Definition bval (x : ascii) : Z := Z.of_nat (nat_of_ascii x).
Definition in_range (lo hi : Z) (x : ascii) : bool := Z.leb lo (bval x) && Z.leb (bval x) hi.
Definition cbits (x : ascii) : Z := Z.land (bval x) 63.

Definition DecodeRune (s : gostring) : option (Z * gostring * bool) :=
  match s with
  | [] => None
  | b0 :: s1 =>
      let v0 := bval b0 in
      let bad := Some (RuneError, s1, false) in
      if Z.ltb v0 128 then Some (v0, s1, true)
      else if in_range 194 223 b0 then
        match s1 with
        | b1 :: s2 =>
            if in_range 128 191 b1
            then Some (Z.lor (Z.shiftl (Z.land v0 31) 6) (cbits b1), s2, true)
            else bad
        | [] => bad
        end
      else if in_range 224 239 b0 then
        let lo := if Z.eqb v0 224 then 160%Z else 128%Z in
        let hi := if Z.eqb v0 237 then 159%Z else 191%Z in
        match s1 with
        | b1 :: b2 :: s3 =>
            if in_range lo hi b1 && in_range 128 191 b2
            then Some (Z.lor (Z.shiftl (Z.land v0 15) 12)
                         (Z.lor (Z.shiftl (cbits b1) 6) (cbits b2)), s3, true)
            else bad
        | _ => bad
        end
      else if in_range 240 244 b0 then
        let lo := if Z.eqb v0 240 then 144%Z else 128%Z in
        let hi := if Z.eqb v0 244 then 143%Z else 191%Z in
        match s1 with
        | b1 :: b2 :: b3 :: s4 =>
            if in_range lo hi b1 && in_range 128 191 b2 && in_range 128 191 b3
            then Some (Z.lor (Z.shiftl (Z.land v0 7) 18)
                         (Z.lor (Z.shiftl (cbits b1) 12)
                            (Z.lor (Z.shiftl (cbits b2) 6) (cbits b3))), s4, true)
            else bad
        | _ => bad
        end
      else bad
  end.

Fixpoint runes_fuel (n : nat) (s : gostring) : list (Z * bool) :=
  match n with
  | 0 => []
  | S n' =>
      match DecodeRune s with
      | None => []
      | Some (r, s', ok) => (r, ok) :: runes_fuel n' s'
      end
  end.

(** The runes of a string, each with its validity. *)
Definition runes (s : gostring) : list (Z * bool) := runes_fuel (length s) s.

(** The fragment of the syntax parsed here: literals, escaped ASCII
    punctuation, [.], [^], [$], groups without flags, alternation, the
    operators [*], [+] and [?] (greedy or lazy), and classes [[...]] and
    [[^...]] of single runes. *)
Inductive regexp :=
| RLit (r : Z)
| RClass (negated : bool) (rs : list Z)
| RAnyCharNotNL
| RBeginText
| REndText
| REmpty
| RConcat (a b : regexp)
| RAlternate (a b : regexp)
| RStar (a : regexp)
| RPlus (a : regexp)
| RQuest (a : regexp).

Definition is_rune (c : ascii) (r : Z) : bool := Z.eqb r (bval c).

Definition is_alnum (r : Z) : bool :=
  (Z.leb 48 r && Z.leb r 57) || (Z.leb 65 r && Z.leb r 90) || (Z.leb 97 r && Z.leb r 122).

Definition is_repeat_op (r : Z) : bool := is_rune "*" r || is_rune "+" r || is_rune "?" r.

(** Class members up to the closing bracket; a range, a nested bracket or
    an escape is outside the fragment. *)
Fixpoint parse_class_members (s : list Z) : option (list Z * list Z) :=
  match s with
  | [] => None
  | r :: s' =>
      if is_rune "]" r then Some ([], s')
      else if is_rune "[" r || is_rune "-" r || is_rune "\" r then None
      else match parse_class_members s' with
           | Some (rs, s'') => Some (r :: rs, s'')
           | None => None
           end
  end.

Definition parse_class (s : list Z) : option (regexp * list Z) :=
  let '(neg, s1) := match s with
                    | r :: s' => if is_rune "^" r then (true, s') else (false, s)
                    | [] => (false, s)
                    end in
  match s1 with
  | r :: _ =>
      if is_rune "]" r then None
      else match parse_class_members s1 with
           | Some (rs, s2) => Some (RClass neg rs, s2)
           | None => None
           end
  | [] => None
  end.

Fixpoint parse_alt (n : nat) (s : list Z) : option (regexp * list Z) :=
  match n with
  | 0 => None
  | S n' =>
      match parse_concat n' s with
      | Some (a, r :: s') =>
          if is_rune "|" r then
            match parse_alt n' s' with
            | Some (b, s'') => Some (RAlternate a b, s'')
            | None => None
            end
          else Some (a, r :: s')
      | res => res
      end
  end
with parse_concat (n : nat) (s : list Z) : option (regexp * list Z) :=
  match n with
  | 0 => None
  | S n' =>
      match s with
      | [] => Some (REmpty, [])
      | r :: _ =>
          if is_rune ")" r || is_rune "|" r then Some (REmpty, s)
          else match parse_repeat n' s with
               | Some (a, s') =>
                   match parse_concat n' s' with
                   | Some (b, s'') => Some (RConcat a b, s'')
                   | None => None
                   end
               | None => None
               end
      end
  end
with parse_repeat (n : nat) (s : list Z) : option (regexp * list Z) :=
  match n with
  | 0 => None
  | S n' =>
      match parse_atom n' s with
      | Some (a, r :: s') =>
          if is_repeat_op r then
            match a with
            | RBeginText | REndText => None
            | _ =>
                let a' := if is_rune "*" r then RStar a
                          else if is_rune "+" r then RPlus a else RQuest a in
                let s'' := match s' with
                           | q :: t => if is_rune "?" q then t else s'
                           | [] => s'
                           end in
                match s'' with
                | q :: _ => if is_repeat_op q || is_rune "{" q then None
                            else Some (a', s'')
                | [] => Some (a', s'')
                end
            end
          else Some (a, r :: s')
      | res => res
      end
  end
with parse_atom (n : nat) (s : list Z) : option (regexp * list Z) :=
  match n with
  | 0 => None
  | S n' =>
      match s with
      | [] => None
      | r :: s' =>
          if is_rune "(" r then
            match s' with
            | q :: _ =>
                if is_rune "?" q then None
                else match parse_alt n' s' with
                     | Some (a, c :: s'') =>
                         if is_rune ")" c then Some (a, s'') else None
                     | _ => None
                     end
            | [] => None
            end
          else if is_rune "[" r then parse_class s'
          else if is_rune "\" r then
            match s' with
            | q :: s'' => if Z.ltb q 128 && negb (is_alnum q) then Some (RLit q, s'')
                          else None
            | [] => None
            end
          else if is_rune "." r then Some (RAnyCharNotNL, s')
          else if is_rune "^" r then Some (RBeginText, s')
          else if is_rune "$" r then Some (REndText, s')
          else if is_repeat_op r || is_rune "{" r || is_rune "}" r
                  || is_rune "]" r || is_rune ")" r || is_rune "|" r then None
          else Some (RLit r, s')
      end
  end.

(** Expressions of at most [max_parsed] runes are parsed here: their
    nesting stays far below the parser's depth limit. *)
Definition max_parsed : nat := 250.

Definition parse_regexp (expr : gostring) : option regexp :=
  let rs := runes expr in
  if forallb snd rs && (length rs <=? max_parsed) then
    match parse_alt (4 * length rs + 4) (map fst rs) with
    | Some (r, []) => Some r
    | _ => None
    end
  else None.

(** Matching (flags [OneLine] and [ClassNL] of the Perl syntax: [^] and
    [$] hold at the ends of the text only, [.] is any rune but a newline,
    a negated class also takes the newline): the positions where a match
    of [r] starting at [i] can end. *)
Fixpoint star_closure (f : nat -> list nat) (fuel : nat) (acc : list nat) : list nat :=
  match fuel with
  | 0 => acc
  | S fuel' =>
      let acc' := nodup Nat.eq_dec (acc ++ flat_map f acc) in
      if length acc' =? length acc then acc else star_closure f fuel' acc'
  end.

Fixpoint ends (r : regexp) (s : list Z) (i : nat) : list nat :=
  match r with
  | RLit c =>
      match nth_error s i with Some x => if Z.eqb x c then [S i] else [] | None => [] end
  | RClass neg cs =>
      match nth_error s i with
      | Some x => if xorb neg (existsb (Z.eqb x) cs) then [S i] else []
      | None => []
      end
  | RAnyCharNotNL =>
      match nth_error s i with Some x => if Z.eqb x 10 then [] else [S i] | None => [] end
  | RBeginText => if i =? 0 then [i] else []
  | REndText => if i =? length s then [i] else []
  | REmpty => [i]
  | RConcat a b => nodup Nat.eq_dec (flat_map (ends b s) (ends a s i))
  | RAlternate a b => nodup Nat.eq_dec (ends a s i ++ ends b s i)
  | RStar a => star_closure (ends a s) (length s + 2) [i]
  | RPlus a => star_closure (ends a s) (length s + 2) (nodup Nat.eq_dec (ends a s i))
  | RQuest a => nodup Nat.eq_dec (i :: ends a s i)
  end.

(** [re.MatchString(text)]: a match starts somewhere in the text. *)
Definition MatchString (r : regexp) (text : gostring) : bool :=
  let s := map fst (runes text) in
  existsb (fun i => match ends r s i with [] => false | _ => true end)
          (seq 0 (length s + 1)).

(** The semantics of [regexp.Compile] beyond the fragment: the matcher
    of the expression, or [None] when it does not compile. *)
Definition RegexpExt := gostring -> option (gostring -> bool).

(** [regexp.Compile(expr)] *)
Definition Compile (ext : RegexpExt) (expr : gostring) : option (gostring -> bool) :=
  match parse_regexp expr with
  | Some r => Some (MatchString r)
  | None => ext expr
  end.

(** ** Ignore matcher (github.com/sabhiram/go-gitignore; loadInvertedIgnore
    and matchInverted, part_000 109-127) *)

(** [strings.Replace(s, old, new, -1)] and, for the literal expressions
    the library uses, [regexp.ReplaceAllString]: every non-overlapping
    occurrence from left to right. *)
Fixpoint replace_fuel (n : nat) (old new s : gostring) : gostring :=
  match n with
  | 0 => s
  | S n' =>
      match s with
      | [] => []
      | x :: s' =>
          if HasPrefix s old then new ++ replace_fuel n' old new (skipn (length old) s)
          else x :: replace_fuel n' old new s'
      end
  end.

Definition Replace (s old new : gostring) : gostring := replace_fuel (length s) old new s.

(** [strings.TrimRight(line, "\r")] *)
Definition trim_right_cr (l : gostring) : gostring :=
  rev ((fix go (x : gostring) := match x with
        | y :: ys => if bool_decide (y = cr) then go ys else x
        | [] => [] end) (rev l)).

(** [strings.Trim(line, " ")] *)
Definition trim_spaces (l : gostring) : gostring :=
  let sp := Ascii.ascii_of_nat 32 in
  let drop_sp := fix go (x : gostring) := match x with
                 | y :: ys => if bool_decide (y = sp) then go ys else x
                 | [] => [] end in
  rev (drop_sp (rev (drop_sp l))).

(** The expression [([^\/+])/.*\*\.] matches: a byte other than '/' and
    '+', then '/', then a star followed by a dot with no newline in
    between. *)
Fixpoint star_dot (s : gostring) : bool :=
  match s with
  | a :: ((b :: _) as s') =>
      (bool_decide (a = star) && bool_decide (b = dot))
      || (negb (bool_decide (a = newline)) && star_dot s')
  | _ => false
  end.

Fixpoint needs_anchor (s : gostring) : bool :=
  match s with
  | x :: ((y :: rest) as s') =>
      (negb (bool_decide (x = slash) || bool_decide (x = "+"%char))
       && bool_decide (y = slash) && star_dot rest)
      || needs_anchor s'
  | _ => false
  end.

Definition magicStar : gostring := str "#$~".

(** [getPatternFromLine(line)]: the compiled expression ([None] for a
    blank line, a comment or an expression that does not compile) and
    whether the pattern is negated. *)
Definition getPatternFromLine (ext : RegexpExt) (line0 : gostring)
  : option (gostring -> bool) * bool :=
  let line1 := trim_right_cr line0 in
  if HasPrefix line1 (str "#") then (None, false) else
  let line2 := trim_spaces line1 in
  if bool_decide (line2 = []) then (None, false) else
  let '(negatePattern, line3) :=
    match line2 with
    | x :: rest => if bool_decide (x = "!"%char) then (true, rest) else (false, line2)
    | [] => (false, line2)
    end in
  let line4 := match line3 with
               | x :: rest =>
                   if bool_decide (x = "#"%char) || bool_decide (x = "!"%char)
                   then rest else line3
               | [] => line3
               end in
  let line5 := if needs_anchor line4 && negb (HasPrefix line4 [slash])
               then slash :: line4 else line4 in
  let line6 := Replace line5 (str ".") (str "\.") in
  let line7 := if HasPrefix line6 (str "/**/") then skipn 1 line6 else line6 in
  let line8 := Replace line7 (str "/**/") (str "(/|/.+/)") in
  let line9 := Replace line8 (str "**/") (str "(|.#$~/)") in
  let line10 := Replace line9 (str "/**") (str "(|/.#$~)") in
  let line11 := Replace line10 (str "\*") (str "\#$~") in
  let line12 := Replace line11 (str "*") (str "([^/]*)") in
  let line13 := Replace line12 (str "?") (str "\?") in
  let line14 := Replace line13 magicStar (str "*") in
  let expr1 := if HasSuffix line14 [slash] then line14 ++ str "(|.*)$"
               else line14 ++ str "(|/.*)$" in
  let expr := if HasPrefix expr1 [slash] then str "^(|/)" ++ skipn 1 expr1
              else str "^(|.*/)" ++ expr1 in
  (Compile ext expr, negatePattern).

Record IgnorePattern := mkIgnorePattern {
  Pattern : gostring -> bool;
  Negate : bool;
  LineNo : nat;
  Line : gostring
}.

(** A compiled [.watch] file. *)
Abbreviation GitIgnore := (list IgnorePattern).

(** [CompileIgnoreLines(lines...)]: the patterns that compile, in order. *)
Definition CompileIgnoreLines (ext : RegexpExt) (lines : list gostring) : GitIgnore :=
  (fix go (i : nat) (ls : list gostring) : GitIgnore :=
     match ls with
     | [] => []
     | l :: rest =>
         match getPatternFromLine ext l with
         | (Some pat, neg) => mkIgnorePattern pat neg (S i) l :: go (S i) rest
         | (None, _) => go (S i) rest
         end
     end) 0 lines.

(** [CompileIgnoreFile]: the file's contents split at newlines. *)
Definition CompileIgnoreFile (ext : RegexpExt) (data : gostring) : GitIgnore :=
  CompileIgnoreLines ext (Split data newline).

(** [GitIgnore.MatchesPath(f)]: the last matching pattern decides, a
    negated one clearing an earlier match. *)
Definition MatchesPath (gi : GitIgnore) (f : gostring) : bool :=
  fold_left (fun matchesPath ip =>
               if Pattern ip f then
                 if negb (Negate ip) then true
                 else if matchesPath then false else matchesPath
               else matchesPath) gi false.

(** [matchInverted(path, ig)] *)
Definition matchInverted (path : gostring) (ig : option GitIgnore) : bool :=
  match ig with
  | None => false
  | Some g =>
      (fix loop (parts : list gostring) : bool :=
         match parts with
         | [] => MatchesPath g path
         | part :: rest =>
             if HasPrefix part [dot] then
               if negb (MatchesPath g path) then false else loop rest
             else loop rest
         end) (Split path slash)
  end.

(** ** Process state *)

(** [appInfo]: the proxy [p] is represented by the port it targets, the
    command [c] by the child's pid and the watcher by its id. *)
Record appInfo := mkAppInfo {
  name : gostring;
  dir : gostring;
  p : Z;
  c : nat;
  t : Z;
  watcher : nat;
  ig : option GitIgnore
}.

Definition set_t (a : appInfo) (now : Z) : appInfo :=
  mkAppInfo (name a) (dir a) (p a) (c a) now (watcher a) (ig a).

(** Observable effects on the operating system, in order. *)
Inductive action :=
| Spawn (pid : nat) (cwd cmd : gostring) (port : Z)
| Kill (pid : nat)
| WatchNew (wid : nat)
| WatchAdd (wid : nat) (path : gostring)
| WatchClose (wid : nat).

(** The shared state: the [apps] map, whether [mu] is held, the running
    children, the open watchers, fresh identifiers and the effect trace. *)
Record World := mkWorld {
  apps : gmap gostring appInfo;
  mu : bool;
  live : gset nat;
  open_watchers : gset nat;
  next_pid : nat;
  next_wid : nat;
  trace : list action
}.

(** A goroutine step ends normally, panics (a runtime error such as a
    nil dereference), or blocks forever on [mu]. *)
Inductive res (A : Type) :=
| Ret (x : A) (w : World)
| Panic (w : World)
| Stuck (w : World).
Arguments Ret {A} x w.
Arguments Panic {A} w.
Arguments Stuck {A} w.

Definition M (A : Type) : Type := World -> res A.

Global Instance M_ret : MRet M := fun A x w => Ret x w.
Global Instance M_bind : MBind M := fun A B k m w =>
  match m w with
  | Ret x w' => k x w'
  | Panic w' => Panic w'
  | Stuck w' => Stuck w'
  end.

Definition modify (f : World -> World) : M unit := fun w => Ret tt (f w).
Definition gets {A} (f : World -> A) : M A := fun w => Ret (f w) w.

Definition with_apps (m : gmap gostring appInfo) (w : World) : World :=
  mkWorld m (mu w) (live w) (open_watchers w) (next_pid w) (next_wid w) (trace w).
Definition with_mu (b : bool) (w : World) : World :=
  mkWorld (apps w) b (live w) (open_watchers w) (next_pid w) (next_wid w) (trace w).
Definition log_action (x : action) (w : World) : World :=
  mkWorld (apps w) (mu w) (live w) (open_watchers w) (next_pid w) (next_wid w) (trace w ++ [x]).

(** [sync.Mutex] is not reentrant: [Lock] on a held mutex blocks; with
    a single lock holder that never releases it, it blocks forever. *)
Definition Lock : M unit := fun w => if mu w then Stuck w else Ret tt (with_mu true w).
Definition Unlock : M unit := modify (with_mu false).

(** [cmd.Process.Kill()]; its error is discarded. *)
Definition kill (pid : nat) : M unit :=
  modify (fun w => log_action (Kill pid)
    (mkWorld (apps w) (mu w) (live w ∖ {[pid]}) (open_watchers w) (next_pid w) (next_wid w) (trace w))).

(** [watcher.Close()] *)
Definition close_watcher (wid : nat) : M unit :=
  modify (fun w => log_action (WatchClose wid)
    (mkWorld (apps w) (mu w) (live w) (open_watchers w ∖ {[wid]}) (next_pid w) (next_wid w) (trace w))).

(** [cmd.Start()] succeeded: a fresh child runs. *)
Definition spawn (cwd cmd : gostring) (port : Z) : M nat := fun w =>
  let pid := next_pid w in
  Ret pid (log_action (Spawn pid cwd cmd port)
    (mkWorld (apps w) (mu w) (live w ∪ {[pid]}) (open_watchers w) (S pid) (next_wid w) (trace w))).

(** [fsnotify.NewWatcher()] *)
Definition new_watcher : M nat := fun w =>
  let wid := next_wid w in
  Ret wid (log_action (WatchNew wid)
    (mkWorld (apps w) (mu w) (live w) (open_watchers w ∪ {[wid]}) (next_pid w) (S wid) (trace w))).

(** ** The operating system seen by the supervisor *)

(** Configuration and the answers of the file system and the network at
    the time of a call. *)
Record Env := mkEnv {
  root : gostring;
  domain : gostring;
  (** [os.Stat(path)] succeeds on a directory *)
  is_dir : gostring -> bool;
  (** [os.Stat(path)] does not report [IsNotExist] *)
  exists_file : gostring -> bool;
  (** content of a file, [None] when it cannot be opened *)
  read_file : gostring -> option gostring;
  (** the directories [addRecursive] adds to an open watcher: those
      [filepath.WalkDir] visits below a path (skipping directories whose
      name starts with '.'), up to the first [w.Add] that fails, whose
      error ends the walk *)
  walk_dirs : gostring -> list gostring;
  (** the port [net.Listen("tcp", "127.0.0.1:0")] gets, [None] when it
      fails *)
  listen : option Z;
  (** whether [cmd.Start()] succeeds *)
  cmd_start_ok : bool;
  (** whether [waitPort(port, 5*time.Second)] sees the port accept before
      the deadline *)
  port_ready : Z -> bool;
  (** [time.Now()] in seconds *)
  now : Z;
  (** whether [fsnotify.NewWatcher()] succeeds *)
  watcher_ok : bool;
  (** [regexp.Compile] beyond the fragment modelled here *)
  regexp_ext : RegexpExt
}.

(** ** Launch (freePort, waitPort, addRecursive, startWatcher, start) *)

(** [freePort]: [l, _ := net.Listen(...)] drops the error; on failure
    [l] is a nil [net.Listener] and [l.Addr()] is a nil dereference. *)
Definition freePort (env : Env) : M Z :=
  match listen env with
  | Some port => mret port
  | None => fun w => Panic w
  end.

(** [addRecursive(w, path)]: [w.Add] for every directory the walk
    visits; on a closed watcher the first [Add] fails and ends the walk. *)
Definition addRecursive (env : Env) (wid : nat) (path : gostring) : M unit := fun w =>
  if bool_decide (wid ∈ open_watchers w) then
    Ret tt (fold_left (fun w' d => log_action (WatchAdd wid d) w') (walk_dirs env path) w)
  else Ret tt w.

(** [startWatcher(app)], called by [start] on a fresh record whose
    watcher is still nil (so the initial [Close] is skipped).  The event
    goroutine it starts is [onEvent] below.  [w, _ := fsnotify.NewWatcher()]
    drops the error: on failure [w] is nil, and the first [w.Add] of
    [addRecursive] dereferences it (a panic in the request goroutine,
    with [mu] held); if the walk adds nothing, the event goroutine's
    [watcher.Events] does, which ends the process.  Both are a panic. *)
Definition startWatcher (env : Env) (app : appInfo) : M appInfo :=
  let ig' := option_map (CompileIgnoreFile (regexp_ext env))
               (read_file env (Join (dir app) (str ".watch"))) in
  if watcher_ok env then
    wid ← new_watcher;
    addRecursive env wid (dir app);;
    mret (mkAppInfo (name app) (dir app) (p app) (c app) (t app) wid ig')
  else fun w => Panic w.

(** [start(name)] *)
Definition start (env : Env) (nm : gostring) : M (goerr + appInfo) :=
  let d := Join (root env) nm in
  match readProcfile d (read_file env (Join d (str "Procfile"))) with
  | inl e => mret (inl e)
  | inr cmdStr =>
      fp ← freePort env;
      if cmd_start_ok env then
        pid ← spawn d cmdStr fp;
        if port_ready env fp then
          app ← startWatcher env (mkAppInfo nm d fp pid (now env) 0 None);
          mret (inr app)
        else mret (inl (ErrTimeout fp))
      else mret (inl ErrCmdStart)
  end.

(** ** stopApp (part_000 194-203) *)

Definition stopApp (a : appInfo) : M unit :=
  Lock;;
  kill (c a);;
  close_watcher (watcher a);;
  modify (fun w => with_apps (delete (name a) (apps w)) w);;
  Unlock.

(** ** handler (part_000 253-282) *)

Inductive resp :=
| NotFound
| StaticFiles (d : gostring)
| Error500 (e : goerr)
| Proxied (port : Z).

(** [a.t = time.Now()] through the record pointer held in the map. *)
Definition touch (nm : gostring) (a : appInfo) (tm : Z) : M unit :=
  modify (fun w => with_apps (<[nm := set_t a tm]> (apps w)) w).

Definition handler (env : Env) (host : gostring) : M resp :=
  let nm := routeName (domain env) host in
  let d := Join (root env) nm in
  if negb (is_dir env d) then mret NotFound
  else if negb (exists_file env (Join d (str "Procfile"))) then mret (StaticFiles d)
  else
    Lock;;
    m ← gets apps;
    match m !! nm with
    | Some a =>
        touch nm a (now env);;
        Unlock;;
        mret (Proxied (p a))
    | None =>
        r ← start env nm;
        match r with
        | inl e => Unlock;; mret (Error500 e)
        | inr newApp =>
            modify (fun w => with_apps (<[nm := newApp]> (apps w)) w);;
            touch nm newApp (now env);;
            Unlock;;
            mret (Proxied (p newApp))
        end
    end.

(** ** Idle reaper (program.run, part_000 291-305) *)

(** [idleTTL = 10 * time.Minute], in seconds. *)
Definition idleTTL : Z := 600.

(** [for _, a := range apps { if time.Since(a.t) > idleTTL { stopApp(a) } }] *)
Fixpoint reap_loop (tm : Z) (l : list (gostring * appInfo)) : M unit :=
  match l with
  | [] => mret tt
  | (_, a) :: rest =>
      (if bool_decide (tm - t a > idleTTL)%Z then stopApp a else mret tt);;
      reap_loop tm rest
  end.

(** One tick of the reaper goroutine; the map is ranged in
    [map_to_list] order (Go leaves the order unspecified). *)
Definition reaper_tick (env : Env) : M unit :=
  Lock;;
  m ← gets apps;
  reap_loop (now env) (map_to_list m);;
  Unlock.

(** ** Watcher events (the goroutine of startWatcher, part_000 217-242) *)

(** One event [event] with path [ev_name]; [ev_create] is
    [event.Op&fsnotify.Create == fsnotify.Create]. *)
Definition onEvent (env : Env) (a : appInfo) (ev_name : gostring) (ev_create : bool) : M unit :=
  (if bool_decide (ev_name = Join (dir a) (str ".watch")) then stopApp a else mret tt);;
  (if ev_create then
     if is_dir env ev_name && matchInverted ev_name (ig a)
     then addRecursive env (watcher a) ev_name else mret tt
   else mret tt);;
  (if matchInverted ev_name (ig a) then stopApp a else mret tt).

(** ** Concurrent requests for one name *)

Definition is_spawn (x : action) : bool := match x with Spawn _ _ _ _ => true | _ => false end.
Fixpoint count_spawns (l : list action) : nat :=
  match l with [] => 0 | x :: l => (if is_spawn x then 1 else 0) + count_spawns l end.
(** Children spawned so far. *)
Definition spawns (w : World) : nat := count_spawns (trace w).

(** Where a request for [nm] is, once it has passed the directory and
    Procfile checks of [handler]: each constructor is a point of the
    code between two accesses to the shared state. *)
Inductive hpc :=
| HLock                    (* before [mu.Lock()] *)
| HLookup                  (* holding [mu], before [apps[name]] *)
| HStart                   (* holding [mu], before [start(name)] *)
| HInsert (a : appInfo)    (* holding [mu], before [apps[name] = newApp] *)
| HTouch (a : appInfo)     (* holding [mu], before [a.t = time.Now()] *)
| HDone (r : resp)         (* released [mu] and answered [r] *)
| HDead (spawned : bool).  (* [start] panicked while holding [mu], after
                              spawning a child or not *)

(** One step of one request [i]; [start] runs against whatever file
    system and network [env] it meets. *)
Inductive hstep (nm : gostring) : World * list hpc -> World * list hpc -> Prop :=
| hs_lock i w w' ths :
    ths !! i = Some HLock -> Lock w = Ret tt w' ->
    hstep nm (w, ths) (w', <[i := HLookup]> ths)
| hs_hit i w ths a :
    ths !! i = Some HLookup -> apps w !! nm = Some a ->
    hstep nm (w, ths) (w, <[i := HTouch a]> ths)
| hs_miss i w ths :
    ths !! i = Some HLookup -> apps w !! nm = None ->
    hstep nm (w, ths) (w, <[i := HStart]> ths)
| hs_start_err i w w' w'' ths env e :
    ths !! i = Some HStart -> start env nm w = Ret (inl e) w' -> Unlock w' = Ret tt w'' ->
    hstep nm (w, ths) (w'', <[i := HDone (Error500 e)]> ths)
| hs_start_ok i w w' ths env a :
    ths !! i = Some HStart -> start env nm w = Ret (inr a) w' ->
    hstep nm (w, ths) (w', <[i := HInsert a]> ths)
| hs_start_panic i w w' ths env (b : bool) :
    ths !! i = Some HStart -> start env nm w = Panic w' ->
    spawns w' = spawns w + (if b then 1 else 0) ->
    hstep nm (w, ths) (w', <[i := HDead b]> ths)
| hs_insert i w w' ths a :
    ths !! i = Some (HInsert a) ->
    modify (fun w0 => with_apps (<[nm := a]> (apps w0)) w0) w = Ret tt w' ->
    hstep nm (w, ths) (w', <[i := HTouch a]> ths)
| hs_touch i w w' w'' ths a tm :
    ths !! i = Some (HTouch a) -> touch nm a tm w = Ret tt w' -> Unlock w' = Ret tt w'' ->
    hstep nm (w, ths) (w'', <[i := HDone (Proxied (p a))]> ths).

Inductive reach (nm : gostring) : World * list hpc -> World * list hpc -> Prop :=
| reach_refl s : reach nm s s
| reach_step s1 s2 s3 : hstep nm s1 s2 -> reach nm s2 s3 -> reach nm s1 s3.

(** [n] first requests for a name, none of them started, with the
    supervisor freshly started. *)
Definition init_world : World := mkWorld ∅ false ∅ ∅ 0 0 [].
Definition first_requests (n : nat) : list hpc := repeat HLock n.

Definition critical (h : hpc) : bool :=
  match h with HLookup | HStart | HInsert _ | HTouch _ | HDead _ => true | _ => false end.
Definition timed_out (h : hpc) : bool :=
  match h with HDone (Error500 (ErrTimeout _)) => true | _ => false end.
Definition inserting (h : hpc) : bool := match h with HInsert _ => true | _ => false end.
Definition starting (h : hpc) : bool := match h with HStart => true | _ => false end.
Definition finished (h : hpc) : bool := match h with HDone _ | HDead _ => true | _ => false end.
Definition dead (h : hpc) : bool := match h with HDead _ => true | _ => false end.
Definition dead_spawned (h : hpc) : bool := match h with HDead true => true | _ => false end.
Definition touching (h : hpc) : bool := match h with HTouch _ => true | _ => false end.

(** Whether the registry holds a record for [nm]. *)
Definition present (nm : gostring) (w : World) : nat :=
  match apps w !! nm with Some _ => 1 | None => 0 end.

(** Children a call of [start] leaves running, by its result. *)
Definition spawned (r : goerr + appInfo) : nat :=
  match r with inr _ | inl (ErrTimeout _) => 1 | inl _ => 0 end.

Fixpoint count (f : hpc -> bool) (ths : list hpc) : nat :=
  match ths with [] => 0 | h :: ths => (if f h then 1 else 0) + count f ths end.

(** ** The older supervisor of [src/main.go] *)

(** main.go's reaper (main.go 133-145): under [mu], every record idle
    for more than [idleTTL] has its child killed and is deleted from the
    map inline.  main.go's record is the struct [{p, c, t}]; it is the
    [p], [c] and [t] of [appInfo]. *)
Fixpoint reap_loop_v0 (tm : Z) (l : list (gostring * appInfo)) : M unit :=
  match l with
  | [] => mret tt
  | (n, a) :: rest =>
      (if bool_decide (tm - t a > idleTTL)%Z
       then kill (c a);; modify (fun w => with_apps (delete n (apps w)) w)
       else mret tt);;
      reap_loop_v0 tm rest
  end.

Definition reaper_tick_v0 (env : Env) : M unit :=
  Lock;;
  m ← gets apps;
  reap_loop_v0 (now env) (map_to_list m);;
  Unlock.

(** main.go 126-132: [parts := strings.Split(os.Args[2], ":")], then
    [domain, port = parts[0], parts[1]], and an empty port becomes
    ["80"].  [None] is the index-out-of-range panic of [parts[1]]. *)
Definition parse_domain_port (arg : gostring) : option (gostring * gostring) :=
  match Split arg colon with
  | d :: pt :: _ => Some (d, if bool_decide (pt = []) then str "80" else pt)
  | _ => None
  end.

(** ** The root directory of part_000's main (lines 345-352) *)

(** [filepath.Abs] on Unix: a rooted path is cleaned, any other is
    joined to the working directory [cwd] ([os.Getwd]). *)
Definition Abs (cwd path : gostring) : gostring :=
  if HasPrefix path [slash] then Clean path else Join cwd path.

(** [root = *dirFlag]; a leading [~] is replaced by [$HOME] through
    [filepath.Join(os.Getenv("HOME"), root[1:])]; then [filepath.Abs]. *)
Definition main_root (home cwd dirFlag : gostring) : gostring :=
  let r := if HasPrefix dirFlag (str "~") then Join home (skipn 1 dirFlag) else dirFlag in
  Abs cwd r.

(** ** The walk of addRecursive (part_000 129-142) *)

(** A directory tree as [os.ReadDir] lists it (entries in name order);
    a symbolic link is not a directory for [filepath.WalkDir]. *)
#[warnings="-register-all"]
Inductive fstree :=
| FDir (nm : gostring) (kids : list fstree)
| FFile (nm : gostring).

Definition node_name (t : fstree) : gostring :=
  match t with FDir n _ | FFile n => n end.

(** The children of a directory in order, until one of them fails. *)
Fixpoint walk_seq (f : fstree -> list gostring * bool) (ks : list fstree) : list gostring * bool :=
  match ks with
  | [] => ([], false)
  | k :: ks' =>
      let '(a, e) := f k in
      if e then (a, true)
      else let '(b, e') := walk_seq f ks' in (a ++ b, e')
  end.

(** The walk of [addRecursive] on a readable tree, where [ok path] is
    whether [w.Add(path)] succeeds: the paths added, in order, and
    whether the walk stopped on the error of a failing [w.Add].
    [WalkDir] calls the function on [path] (whose [d.Name()] is the base
    name of [path]), then on each entry at [filepath.Join(path, entry)];
    a directory whose name starts with '.' returns [SkipDir], so neither
    it nor anything below it is visited; files are left alone; an error
    returned by [w.Add] ends the whole walk and is its result. *)
Fixpoint walk_add (ok : gostring -> bool) (path : gostring) (t : fstree) : list gostring * bool :=
  match t with
  | FFile _ => ([], false)
  | FDir n kids =>
      if HasPrefix n [dot] then ([], false)
      else if ok path then
        let '(added, failed) := walk_seq (fun k => walk_add ok (Join path (node_name k)) k) kids in
        (path :: added, failed)
      else ([], true)
  end.

Fixpoint take_while {A} (f : A -> bool) (l : list A) : list A :=
  match l with
  | [] => []
  | x :: l' => if f x then x :: take_while f l' else []
  end.

(** The directories [addRecursive] is meant to watch under [path]:
    a directory whose own name does not start with '.', reached from
    [path] through directories whose names do not start with '.'. *)
Inductive visible : gostring -> fstree -> gostring -> Prop :=
| visible_here (path n : gostring) (kids : list fstree) :
    HasPrefix n [dot] = false -> visible path (FDir n kids) path
| visible_below (path n : gostring) (kids : list fstree) (k : fstree) (p : gostring) :
    HasPrefix n [dot] = false -> In k kids ->
    visible (Join path (node_name k)) k p -> visible path (FDir n kids) p.

(** ** main.go's start and handler (main.go 52-117; part_000 459-524) *)

(** [filepath.Join] of any number of elements: empty elements are
    skipped; the rest are joined with '/' and cleaned; no non-empty
    element gives "". *)
Definition JoinAll (els : list gostring) : gostring :=
  match List.filter (fun e => negb (bool_decide (e = []))) els with
  | [] => []
  | els' => Clean (join_with slash els')
  end.

(** The [error] values of this [start]: the [os.Open] error on the
    Procfile, [fmt.Errorf("no web entry")], the error of [cmd.Start()]
    and [waitPort]'s [fmt.Errorf("timeout waiting for %s", addr)]. *)
Inductive goerr_v0 :=
| E0Open (path : gostring)
| E0NoWeb
| E0CmdStart
| E0Timeout (port : Z).

(** [start(name)] returns the proxy (its port) and the command (its
    pid); no watcher is started. *)
Definition start_v0 (env : Env) (nm : gostring) : M (goerr_v0 + (Z * nat)) :=
  let pf := JoinAll [root env; nm; str "Procfile"] in
  let d := Join (root env) nm in
  match read_file env pf with
  | None => mret (inl (E0Open pf))
  | Some data =>
      let cmdStr := scan_web (ScanLines data) in
      if bool_decide (cmdStr = []) then mret (inl E0NoWeb)
      else
        fp ← freePort env;
        if cmd_start_ok env then
          pid ← spawn d cmdStr fp;
          if port_ready env fp then mret (inr (fp, pid)) else mret (inl (E0Timeout fp))
        else mret (inl E0CmdStart)
  end.

Inductive resp_v0 :=
| NotFound0
| StaticFiles0 (d : gostring)
| Error500_0 (e : goerr_v0)
| Proxied0 (port : Z).

(** [handler]: the map holds [struct{p; c; t}] values; they are kept as
    [appInfo] records whose [name], [dir], [watcher] and [ig] are the
    name, the directory, 0 and [None] and are never read.  [a.t =
    time.Now()] changes the local copy, written back by [apps[name] = a]
    on both paths. *)
Definition handler_v0 (env : Env) (host : gostring) : M resp_v0 :=
  let nm := routeName (domain env) host in
  let d := Join (root env) nm in
  if negb (is_dir env d) then mret NotFound0
  else if negb (exists_file env (Join d (str "Procfile"))) then mret (StaticFiles0 d)
  else
    Lock;;
    m ← gets apps;
    match m !! nm with
    | Some a =>
        modify (fun w => with_apps (<[nm := set_t a (now env)]> (apps w)) w);;
        Unlock;;
        mret (Proxied0 (p a))
    | None =>
        r ← start_v0 env nm;
        match r with
        | inl e => Unlock;; mret (Error500_0 e)
        | inr (fp, pid) =>
            let a := mkAppInfo nm d fp pid (now env) 0 None in
            modify (fun w => with_apps (<[nm := set_t a (now env)]> (apps w)) w);;
            Unlock;;
            mret (Proxied0 fp)
        end
    end.

(** ** Theorems *)

(** *** Monad facts *)

Section MonadFacts.

Lemma bind_Ret {A B} (m : M A) (k : A -> M B) (w : World) (y : B) (w' : World) :
  (m ≫= k) w = Ret y w' -> exists v w1, m w = Ret v w1 /\ k v w1 = Ret y w'.
Proof. unfold mbind, M_bind. destruct (m w); [eauto|discriminate|discriminate]. Qed.

Lemma bind_Ret_eq {A B} (m : M A) (k : A -> M B) (w : World) (v : A) (w1 : World) :
  m w = Ret v w1 -> (m ≫= k) w = k v w1.
Proof. intros H. unfold mbind, M_bind. rewrite H. reflexivity. Qed.

Lemma bind_Stuck_eq {A B} (m : M A) (k : A -> M B) (w w1 : World) :
  m w = Stuck w1 -> (m ≫= k) w = Stuck w1.
Proof. intros H. unfold mbind, M_bind. rewrite H. reflexivity. Qed.

Lemma bind_Panic_eq {A B} (m : M A) (k : A -> M B) (w w1 : World) :
  m w = Panic w1 -> (m ≫= k) w = Panic w1.
Proof. intros H. unfold mbind, M_bind. rewrite H. reflexivity. Qed.

End MonadFacts.

Ltac inv_bind H v w1 H1 H2 :=
  apply bind_Ret in H; destruct H as [v [w1 [H1 H2]]].

Lemma startWatcher_dir (env : Env) (app a : appInfo) (w w' : World) :
  startWatcher env app w = Ret a w' -> dir a = dir app /\ name a = name app /\ p a = p app /\ c a = c app.
Proof.
  unfold startWatcher. intros H. destruct (watcher_ok env); [|discriminate].
  inv_bind H wid w1 H1 H2. inv_bind H2 u w2 H3 H4.
  injection H4 as <- _. repeat split; reflexivity.
Qed.

(** *** Go string helpers *)

Section StringFacts.

Lemma Split_ne_nil (s : gostring) (sep : ascii) : Split s sep <> [].
Proof.
  induction s as [|x s IH]; simpl; [discriminate|].
  case_bool_decide; [discriminate|].
  destruct (Split s sep); discriminate.
Qed.

Lemma Split_cons_ne (x : ascii) (s : gostring) (sep : ascii) :
  x <> sep -> Split (x :: s) sep =
    match Split s sep with p0 :: ps => (x :: p0) :: ps | [] => [[x]] end.
Proof. intros Hx. simpl. case_bool_decide; [congruence|reflexivity]. Qed.

Lemma first_elem_Split_cons (x : ascii) (s : gostring) (sep : ascii) :
  x <> sep -> first_elem (Split (x :: s) sep) = x :: first_elem (Split s sep).
Proof.
  intros Hx. rewrite Split_cons_ne by exact Hx.
  pose proof (Split_ne_nil s sep) as Hn.
  destruct (Split s sep); [congruence|reflexivity].
Qed.

Lemma Split_app_sep (x r : gostring) (sep : ascii) :
  ~ In sep x -> Split (x ++ sep :: r) sep = x :: Split r sep.
Proof.
  induction x as [|a x IH]; intros Hin; simpl.
  - case_bool_decide; congruence.
  - case_bool_decide as Ha; [subst; exfalso; apply Hin; left; reflexivity|].
    rewrite IH by (intros H'; apply Hin; right; exact H'). reflexivity.
Qed.

Lemma Split_no_sep (x : gostring) (sep : ascii) : ~ In sep x -> Split x sep = [x].
Proof.
  induction x as [|a x IH]; intros Hin; simpl; [reflexivity|].
  case_bool_decide as Ha; [subst; exfalso; apply Hin; left; reflexivity|].
  rewrite IH by (intros H'; apply Hin; right; exact H'). reflexivity.
Qed.

Lemma skipn_app_exact (q suf : gostring) : skipn (length (q ++ suf) - length suf) (q ++ suf) = suf.
Proof.
  rewrite length_app. replace (length q + length suf - length suf) with (length q) by lia.
  induction q; simpl; auto.
Qed.

Lemma firstn_app_exact (q suf : gostring) : firstn (length (q ++ suf) - length suf) (q ++ suf) = q.
Proof.
  rewrite length_app. replace (length q + length suf - length suf) with (length q) by lia.
  induction q; simpl; [reflexivity|]. f_equal; assumption.
Qed.

Lemma TrimSuffix_app (q suf : gostring) : TrimSuffix (q ++ suf) suf = q.
Proof.
  unfold TrimSuffix, HasSuffix.
  destruct (Nat.leb_spec (length suf) (length (q ++ suf))) as [_|Hlt];
    [|rewrite length_app in Hlt; lia].
  case_bool_decide as Hs; [apply firstn_app_exact|].
  exfalso. apply Hs. apply skipn_app_exact.
Qed.

End StringFacts.

(** *** The routing rule as the spec words it *)

(** [hp] is the Host header up to its first ':'. *)
Definition host_part_spec (host hp : gostring) : Prop :=
  ~ In colon hp /\ exists rest, (rest = [] \/ exists r, rest = colon :: r) /\ host = hp ++ rest.

(** [r] is [s] with one trailing [suf] removed, or [s] itself when [s]
    does not end in [suf]. *)
Definition strips_spec (s suf r : gostring) : Prop :=
  s = r ++ suf \/ ((forall q, s <> q ++ suf) /\ r = s).

Definition route_spec (domain host nm : gostring) : Prop :=
  exists hp s1 s2, host_part_spec host hp /\ strips_spec hp domain s1 /\
    strips_spec s1 [dot] s2 /\ nm = match s2 with [] => str "www" | _ => s2 end.

Section RoutingFacts.

Lemma first_elem_Split_colon (host : gostring) : host_part_spec host (first_elem (Split host colon)).
Proof.
  induction host as [|x host IH].
  - split; [simpl; tauto|]. exists []. split; [left; reflexivity|reflexivity].
  - destruct (decide (x = colon)) as [->|Hx].
    + replace (first_elem (Split (colon :: host) colon)) with (@nil ascii)
        by (cbn [Split]; rewrite bool_decide_eq_true_2 by reflexivity; reflexivity).
      split; [simpl; tauto|].
      exists (colon :: host). split; [right; eexists; reflexivity|reflexivity].
    + rewrite first_elem_Split_cons by exact Hx.
      destruct IH as [Hin [rest [Hr Heq]]]. split.
      * intros [H|H]; [congruence|contradiction].
      * exists rest. split; [exact Hr|]. simpl. f_equal. exact Heq.
Qed.

Lemma host_part_unique (host a b : gostring) :
  host_part_spec host a -> host_part_spec host b -> a = b.
Proof.
  intros [Ha [ra [Hra Ea]]] [Hb [rb [Hrb Eb]]]. rewrite Ea in Eb. clear Ea host.
  revert b Hb Eb. induction a as [|x a IH]; intros b Hb Eb; destruct b as [|y b].
  - reflexivity.
  - simpl in Eb. destruct Hra as [->|[r ->]]; [discriminate|].
    injection Eb as <- _. exfalso. apply Hb. left. reflexivity.
  - simpl in Eb. destruct Hrb as [->|[r ->]]; [discriminate|].
    injection Eb as -> _. exfalso. apply Ha. left. reflexivity.
  - simpl in Eb. injection Eb as -> Eb. f_equal.
    apply IH; [intros H; apply Ha; right; exact H| |exact Eb].
    intros H; apply Hb; right; exact H.
Qed.

Lemma TrimSuffix_spec (s suf : gostring) : strips_spec s suf (TrimSuffix s suf).
Proof.
  unfold TrimSuffix, HasSuffix.
  destruct (Nat.leb_spec (length suf) (length s)) as [Hle|Hlt];
    [case_bool_decide as Hs|]; simpl.
  - left. rewrite <- Hs at 2. symmetry. apply firstn_skipn.
  - right. split; [|reflexivity]. intros q ->. apply Hs. apply skipn_app_exact.
  - right. split; [|reflexivity]. intros q ->. rewrite length_app in Hlt. lia.
Qed.

Lemma strips_unique (s suf r1 r2 : gostring) :
  strips_spec s suf r1 -> strips_spec s suf r2 -> r1 = r2.
Proof.
  intros [H1|[N1 ->]] [H2|[N2 ->]].
  - rewrite H1 in H2. eapply app_inv_tail. exact H2.
  - exfalso. eapply N2. exact H1.
  - exfalso. eapply N1. exact H2.
  - reflexivity.
Qed.

End RoutingFacts.

(** C4: the app name of a request is the Host header up to its first
    ':', with one trailing occurrence of the configured domain stripped,
    then one trailing '.', and "www" when nothing remains. *)
Theorem routeName_spec (domain host nm : gostring) :
  route_spec domain host nm <-> nm = routeName domain host.
Proof.
  split.
  - intros [hp [s1 [s2 [Hhp [H1 [H2 ->]]]]]]. unfold routeName.
    rewrite (host_part_unique _ _ _ (first_elem_Split_colon host) Hhp).
    rewrite (strips_unique _ _ _ _ (TrimSuffix_spec hp domain) H1).
    rewrite (strips_unique _ _ _ _ (TrimSuffix_spec s1 [dot]) H2).
    destruct s2; case_bool_decide; congruence.
  - intros ->. exists (first_elem (Split host colon)),
      (TrimSuffix (first_elem (Split host colon)) domain),
      (TrimSuffix (TrimSuffix (first_elem (Split host colon)) domain) [dot]).
    split; [apply first_elem_Split_colon|]. split; [apply TrimSuffix_spec|].
    split; [apply TrimSuffix_spec|]. unfold routeName.
    destruct (TrimSuffix (TrimSuffix (first_elem (Split host colon)) domain) [dot]);
      case_bool_decide; congruence.
Qed.

(** *** Procfile reader *)

Section ProcfileFacts.

Definition is_web (l : gostring) : bool := HasPrefix l (str "web:").

Lemma scan_web_app (pre : list gostring) (l : gostring) (post : list gostring) :
  Forall (fun x => is_web x = false) pre -> is_web l = true ->
  scan_web (pre ++ l :: post) = TrimSpace (skipn 4 l).
Proof.
  induction pre as [|x pre IH]; intros Hpre Hl; cbn [scan_web app].
  - unfold is_web in Hl. rewrite Hl. reflexivity.
  - inversion Hpre as [|? ? Hx Hpre']; subst. unfold is_web in Hx. rewrite Hx.
    apply IH; assumption.
Qed.

Lemma scan_web_cases (toks : list gostring) :
  (exists pre l post, toks = pre ++ l :: post /\ Forall (fun x => is_web x = false) pre /\
     is_web l = true /\ scan_web toks = TrimSpace (skipn 4 l)) \/
  scan_web toks = [].
Proof.
  induction toks as [|x toks IH]; cbn [scan_web]; [right; reflexivity|].
  destruct (HasPrefix x (str "web:")) eqn:Hx.
  - left. exists [], x, toks. repeat split; auto.
  - destruct IH as [[pre [l [post [-> [Hpre [Hl Heq]]]]]]|IH]; [left|right; exact IH].
    exists (x :: pre), l, post. repeat split; auto.
Qed.

(** A raw line of [MaxScanTokenSize] bytes or more ends the scan. *)
Lemma scan_tokens_long (pre : list gostring) (l : gostring) (post : list gostring) :
  Forall (fun x => length x < MaxScanTokenSize) pre -> MaxScanTokenSize <= length l ->
  scan_tokens (pre ++ l :: post) = map dropCR pre.
Proof.
  induction pre as [|x pre IH]; intros Hpre Hl; cbn [scan_tokens app map].
  - destruct (Nat.ltb_spec (length l) MaxScanTokenSize); [lia|reflexivity].
  - inversion Hpre as [|? ? Hx Hpre']; subst.
    destruct (Nat.ltb_spec (length x) MaxScanTokenSize); [|lia].
    f_equal. apply IH; assumption.
Qed.

End ProcfileFacts.

(** The lines of a file: its text cut at newlines with one trailing
    carriage return dropped, with no limit on their length. *)
Definition file_lines (data : gostring) : list gostring := map dropCR (raw_lines data).

(** A Procfile whose first line is 64 KiB long and whose second line is
    a [web:] entry. *)
Definition long_procfile : gostring := repeat "x"%char MaxScanTokenSize ++ newline :: str "web: run".

(** C5 (counterexample): the claim says the first [web:] line of the
    file is returned whatever the other lines are; a first line of
    64 KiB ends [bufio.Scanner]'s scan and the reader fails with the
    "NO web:" error although the file's second line is [web: run]. *)
Lemma readProcfile_long_line :
  file_lines long_procfile = [repeat "x"%char MaxScanTokenSize; str "web: run"] /\
  readProcfile (str "/t/app") (Some long_procfile) = inl (ErrNoWeb (str "/t/app")).
Proof.
  split; match goal with |- ?P => apply (@bool_decide_eq_true_1 P _) end;
    vm_compute; reflexivity.
Qed.

(** C5 (amended): the reader scans the lines of [dir/Procfile] (cut at
    newlines, one trailing '\r' dropped) and stops at the first line of
    64 KiB or more; it returns the first scanned line with prefix [web:],
    the prefix removed and surrounding whitespace trimmed, when that is
    non-empty; an unopenable file fails with the open error, and any
    other outcome with the "NO web:" error, both of the NoWebEntry
    kind; later lines are not considered. *)
Theorem readProcfile_spec (d : gostring) :
  readProcfile d None = inl (ErrOpen (Join d (str "Procfile"))) /\
  is_NoWebEntry (ErrOpen (Join d (str "Procfile"))) = true /\
  (forall data cmd, readProcfile d (Some data) = inr cmd <->
     exists pre l post, ScanLines data = pre ++ l :: post /\
       Forall (fun x => HasPrefix x (str "web:") = false) pre /\
       HasPrefix l (str "web:") = true /\ cmd = TrimSpace (skipn 4 l) /\ cmd <> []) /\
  (forall data e, readProcfile d (Some data) = inl e -> e = ErrNoWeb d /\ is_NoWebEntry e = true) /\
  (forall data pre l post, raw_lines data = pre ++ l :: post ->
     Forall (fun x => length x < MaxScanTokenSize) pre -> MaxScanTokenSize <= length l ->
     ScanLines data = map dropCR pre).
Proof.
  split; [reflexivity|]. split; [reflexivity|]. split; [|split].
  - intros data cmd. unfold readProcfile. split.
    + case_bool_decide as Hc; [discriminate|]. intros Heq. injection Heq as <-.
      destruct (scan_web_cases (ScanLines data)) as [[pre [l [post [E [Hpre [Hl Hs]]]]]]|Hs];
        [|contradiction].
      exists pre, l, post. repeat split; auto.
    + intros [pre [l [post [E [Hpre [Hl [-> Hne]]]]]]].
      rewrite E, scan_web_app by assumption.
      case_bool_decide; [contradiction|reflexivity].
  - intros data e. unfold readProcfile. case_bool_decide; [|discriminate].
    intros Heq. injection Heq as <-. split; reflexivity.
  - intros data pre l post E Hpre Hl. unfold ScanLines. rewrite E.
    apply scan_tokens_long; assumption.
Qed.

(** *** Ignore matcher *)

(** C6 (code_bug): the loop of [matchInverted] over the path components
    returns [false] only when [ig.MatchesPath(path)] is false, which the
    final [return] gives anyway: for every path the result is
    [MatchesPath], and a dot-prefixed component changes nothing.  With
    [.watch] = [src/*] (compiled to ^(|.* /)src/([^/]* )(|/.* )$, spaces
    added here), the editor swap file [src/.a.swp] triggers a reload
    although no pattern names it. *)
Theorem matchInverted_no_dot_rule :
  (forall (gi : GitIgnore) (path : gostring), matchInverted path (Some gi) = MatchesPath gi path) /\
  (forall ext : RegexpExt,
     matchInverted (str "/t/hello/src/.a.swp") (Some (CompileIgnoreFile ext (str "src/*"))) = true).
Proof.
  split; [|intros ext; vm_compute; reflexivity].
  intros gi path. unfold matchInverted.
  induction (Split path slash) as [|part parts IH]; [reflexivity|].
  destruct (HasPrefix part [dot]); [|exact IH].
  destruct (MatchesPath gi path) eqn:Hm; [exact IH|reflexivity].
Qed.

(** *** Paths derived from the Host header *)

(** An absolute, clean directory path [/c1/.../cn]. *)
Definition abs_path (comps : list gostring) : gostring := slash :: join_with slash comps.

Definition plain_comp (x : gostring) : Prop :=
  x <> [] /\ x <> [dot] /\ x <> [dot; dot] /\ slash ∉ x.

Global Instance plain_comp_dec (x : gostring) : Decision (plain_comp x).
Proof. unfold plain_comp. apply _. Defined.

(** [d] is neither [root] nor below it. *)
Definition outside (root d : gostring) : Prop :=
  d <> root /\ HasPrefix d (root ++ [slash]) = false.

Section PathFacts.

Lemma join_with_app_last (sep : ascii) (comps : list gostring) (z : gostring) :
  comps <> [] -> join_with sep (comps ++ [z]) = join_with sep comps ++ sep :: z.
Proof.
  induction comps as [|x comps IH]; intros Hne; [congruence|].
  destruct comps as [|y comps]; [reflexivity|].
  change ((x :: y :: comps) ++ [z]) with (x :: (y :: comps ++ [z])).
  change (join_with sep (x :: y :: comps ++ [z]))
    with (x ++ sep :: join_with sep ((y :: comps) ++ [z])).
  change (join_with sep (x :: y :: comps)) with (x ++ sep :: join_with sep (y :: comps)).
  rewrite IH by discriminate. rewrite <- app_assoc. reflexivity.
Qed.

Lemma Split_join (sep : ascii) (comps : list gostring) :
  Forall (fun x => ~ In sep x) comps -> comps <> [] -> Split (join_with sep comps) sep = comps.
Proof.
  induction comps as [|x comps IH]; intros Hf Hne; [congruence|].
  inversion Hf as [|? ? Hx Hf']; subst.
  destruct comps as [|y comps].
  - apply Split_no_sep. exact Hx.
  - cbn [join_with]. rewrite Split_app_sep by exact Hx. f_equal.
    apply IH; [exact Hf'|discriminate].
Qed.

Lemma clean_elems_plain (rooted : bool) (stk comps rest : list gostring) :
  Forall plain_comp comps ->
  clean_elems rooted stk (comps ++ rest) = clean_elems rooted (rev comps ++ stk) rest.
Proof.
  revert stk. induction comps as [|x comps IH]; intros stk Hf; [reflexivity|].
  inversion Hf as [|? ? [H1 [H2 [H3 _]]] Hf']; subst.
  cbn [app clean_elems].
  rewrite (bool_decide_eq_false_2 _ H1), (bool_decide_eq_false_2 _ H2). simpl orb.
  rewrite (bool_decide_eq_false_2 _ H3).
  rewrite IH by exact Hf'. cbn [rev]. rewrite <- app_assoc. reflexivity.
Qed.

Lemma plain_no_slash (comps : list gostring) :
  Forall plain_comp comps -> Forall (fun x => ~ In slash x) comps.
Proof.
  intros Hf. eapply Forall_impl; [exact Hf|].
  intros x [_ [_ [_ Hx]]] Hin. apply Hx. apply list_elem_of_In. exact Hin.
Qed.

(** [filepath.Join(root, "..")] is the parent of a clean absolute [root]. *)
Lemma Join_parent (comps : list gostring) :
  Forall plain_comp comps -> comps <> [] ->
  Join (abs_path comps) [dot; dot] = abs_path (removelast comps).
Proof.
  intros Hf Hne. unfold abs_path.
  change (Join (slash :: join_with slash comps) [dot; dot])
    with (Clean (slash :: join_with slash comps ++ [slash; dot; dot])).
  unfold Clean.
  replace (HasPrefix (slash :: join_with slash comps ++ [slash; dot; dot]) [slash]) with true
    by reflexivity.
  change (slash :: join_with slash comps ++ [slash; dot; dot])
    with ([] ++ slash :: (join_with slash comps ++ slash :: [dot; dot])).
  rewrite Split_app_sep by (simpl; tauto).
  rewrite <- join_with_app_last by exact Hne.
  rewrite Split_join.
  2:{ apply Forall_app. split; [apply plain_no_slash; exact Hf|].
      constructor; [simpl; intuition discriminate|constructor]. }
  2:{ destruct comps; [congruence|discriminate]. }
  cbn [clean_elems]. rewrite bool_decide_eq_true_2 by reflexivity. simpl orb.
  rewrite clean_elems_plain by exact Hf.
  destruct (exists_last Hne) as [l' [a ->]].
  rewrite removelast_last, rev_app_distr. cbn [rev app clean_elems].
  apply Forall_app in Hf. destruct Hf as [_ Ha]. inversion Ha as [|? ? [_ [_ [Ha3 _]]] _]; subst.
  rewrite bool_decide_eq_false_2 by discriminate. simpl orb.
  rewrite bool_decide_eq_true_2 by reflexivity.
  rewrite bool_decide_eq_false_2 by exact Ha3.
  rewrite app_nil_r, rev_involutive. reflexivity.
Qed.

Lemma abs_path_removelast_shorter (comps : list gostring) :
  Forall plain_comp comps -> comps <> [] ->
  length (abs_path (removelast comps)) < length (abs_path comps).
Proof.
  intros Hf Hne. destruct (exists_last Hne) as [l' [a ->]].
  rewrite removelast_last. unfold abs_path. cbn [length].
  apply Forall_app in Hf. destruct Hf as [_ Ha].
  inversion Ha as [|? ? [Ha1 _] _]; subst.
  destruct l' as [|x l'].
  - simpl. destruct a; [congruence|simpl; lia].
  - rewrite join_with_app_last by discriminate. rewrite length_app. simpl. lia.
Qed.

Lemma outside_shorter (root d : gostring) : length d < length root -> outside root d.
Proof.
  intros Hlt. split.
  - intros ->. lia.
  - unfold HasPrefix. rewrite bool_decide_eq_false_2; [reflexivity|].
    intros Heq. rewrite firstn_all2 in Heq by (rewrite length_app; simpl; lia).
    rewrite Heq, length_app in Hlt. simpl in Hlt. lia.
Qed.

Lemma routeName_dotdot (domain : gostring) :
  colon ∉ domain -> routeName domain (str "..." ++ domain) = [dot; dot].
Proof.
  intros Hd. unfold routeName.
  rewrite Split_no_sep.
  2:{ intros Hin. apply in_app_or in Hin. destruct Hin as [Hin|Hin].
      - simpl in Hin. intuition discriminate.
      - apply Hd. apply list_elem_of_In. exact Hin. }
  cbn [first_elem]. rewrite TrimSuffix_app.
  change (str "...") with ([dot; dot] ++ [dot]). rewrite TrimSuffix_app.
  rewrite bool_decide_eq_false_2 by discriminate. reflexivity.
Qed.

Lemma start_dir (env : Env) (nm : gostring) (w w' : World) (a : appInfo) :
  start env nm w = Ret (inr a) w' -> dir a = Join (root env) nm.
Proof.
  unfold start. destruct (readProcfile _ _) as [e|cmdStr]; [discriminate|].
  intros H. inv_bind H fp w1 H1 H2.
  destruct (cmd_start_ok env); [|discriminate].
  inv_bind H2 pid w2 H3 H4. destruct (port_ready env fp); [|discriminate].
  inv_bind H4 ap0 w3 H5 H6. injection H6 as <- _.
  apply (startWatcher_dir _ _ _ _ _ H5).
Qed.

End PathFacts.

(** C10 (counterexample): the claim's examples do not leave [root]:
    Host [..] gives the name [.] (the trailing '.' is stripped), which
    resolves to [root] itself, and a host outside the domain such as
    [example.com] resolves to a directory below [root]. *)
Lemma appDir_examples_inside :
  appDir (str "/home/u/Web") (str "localhost") (str "..") = str "/home/u/Web" /\
  appDir (str "/home/u/Web") (str "localhost") (str "example.com") = str "/home/u/Web/example.com" /\
  HasPrefix (appDir (str "/home/u/Web") (str "localhost") (str "example.com"))
            (str "/home/u/Web" ++ [slash]) = true.
Proof. vm_compute. repeat split; reflexivity. Qed.

(** C10 (amended): [handler] takes [filepath.Join(root, name)] without
    checking [name]: for the Host ["..." ++ domain] (for example
    [...localhost], or [...]) the name is [..] and the directory is the
    parent of [root], outside [root]; when it exists and has no Procfile
    the handler serves it as static files, and a launch for that name
    runs in it. *)
Theorem parent_dir_served (env : Env) (comps : list gostring) (w : World) :
  colon ∉ domain env -> Forall plain_comp comps -> comps <> [] -> root env = abs_path comps ->
  routeName (domain env) (str "..." ++ domain env) = [dot; dot] /\
  appDir (root env) (domain env) (str "..." ++ domain env) = abs_path (removelast comps) /\
  outside (root env) (abs_path (removelast comps)) /\
  (is_dir env (abs_path (removelast comps)) = true ->
   exists_file env (Join (abs_path (removelast comps)) (str "Procfile")) = false ->
   handler env (str "..." ++ domain env) w = Ret (StaticFiles (abs_path (removelast comps))) w) /\
  (forall w1 w2 a, start env [dot; dot] w1 = Ret (inr a) w2 -> dir a = abs_path (removelast comps)).
Proof.
  intros Hd Hf Hne Hroot.
  assert (Hn : routeName (domain env) (str "..." ++ domain env) = [dot; dot])
    by (apply routeName_dotdot; exact Hd).
  assert (Hj : Join (root env) [dot; dot] = abs_path (removelast comps))
    by (rewrite Hroot; apply Join_parent; assumption).
  split; [exact Hn|]. split; [unfold appDir; rewrite Hn; exact Hj|]. split.
  { rewrite Hroot. apply outside_shorter. apply abs_path_removelast_shorter; assumption. }
  split.
  - intros Hdir Hpf. unfold handler. rewrite Hn, Hj, Hdir, Hpf. reflexivity.
  - intros w1 w2 a Hs. rewrite <- Hj. eapply start_dir. exact Hs.
Qed.

Definition web_env : Env := mkEnv (str "/home/u/Web") (str "localhost")
  (fun d => bool_decide (d = str "/home/u"))
  (fun _ => false) (fun _ => None) (fun d => [d]) (Some 40000%Z) true (fun _ => true) 0 true (fun _ => None).

Lemma parent_dir_served_witness :
  handler web_env (str "...localhost") init_world = Ret (StaticFiles (str "/home/u")) init_world.
Proof.
  destruct (parent_dir_served web_env [str "home"; str "u"; str "Web"] init_world)
    as [_ [_ [_ [H _]]]].
  - apply (bool_decide_unpack _). vm_compute. exact I.
  - apply (bool_decide_unpack _). vm_compute. exact I.
  - discriminate.
  - reflexivity.
  - exact (H eq_refl eq_refl).
Defined.

(** *** stopApp *)

(** The part of the world [stopApp] acts on: the registry, the mutex,
    the running children and the open watchers. *)
Definition regstate (w : World) : gmap gostring appInfo * bool * gset nat * gset nat :=
  (apps w, mu w, live w, open_watchers w).

Definition observe (r : res unit) : nat * (gmap gostring appInfo * bool * gset nat * gset nat) :=
  match r with
  | Ret _ w => (0, regstate w)
  | Panic w => (1, regstate w)
  | Stuck w => (2, regstate w)
  end.

Section StopFacts.

Lemma stopApp_unlocked (a : appInfo) (w : World) :
  mu w = false ->
  stopApp a w = Ret tt (mkWorld (delete (name a) (apps w)) false (live w ∖ {[c a]})
                          (open_watchers w ∖ {[watcher a]}) (next_pid w) (next_wid w)
                          ((trace w ++ [Kill (c a)]) ++ [WatchClose (watcher a)])).
Proof.
  intros Hmu. unfold stopApp, Lock. unfold mbind at 1, M_bind at 1. rewrite Hmu.
  cbn. reflexivity.
Qed.

Lemma stopApp_locked (a : appInfo) (w : World) : mu w = true -> stopApp a w = Stuck w.
Proof. intros Hmu. unfold stopApp, Lock. unfold mbind at 1, M_bind at 1. rewrite Hmu. reflexivity. Qed.

End StopFacts.

(** C8: [stopApp] is idempotent and commutes with another stop of the
    same name: a second stop after a completed one leaves the registry,
    the mutex, the children and the watchers as the first left them, and
    two stops of one name give the same state in either order. *)
Theorem stopApp_idempotent_commutative :
  (forall (a : appInfo) (w w1 : World), stopApp a w = Ret tt w1 ->
     exists w2, stopApp a w1 = Ret tt w2 /\ regstate w2 = regstate w1) /\
  (forall (a b : appInfo) (w : World), name a = name b ->
     observe ((stopApp a;; stopApp b) w) = observe ((stopApp b;; stopApp a) w)).
Proof.
  split.
  - intros a w w1 H. destruct (mu w) eqn:Hmu.
    + rewrite stopApp_locked in H by exact Hmu. discriminate.
    + rewrite stopApp_unlocked in H by exact Hmu. injection H as <-.
      eexists. split; [apply stopApp_unlocked; reflexivity|].
      unfold regstate; cbn. rewrite delete_delete_eq. f_equal; [f_equal|]; set_solver.
  - intros a b w Hn. destruct (mu w) eqn:Hmu.
    + rewrite !(bind_Stuck_eq _ _ w w) by (apply stopApp_locked; exact Hmu). reflexivity.
    + rewrite (bind_Ret_eq _ _ w tt _ (stopApp_unlocked a w Hmu)).
      rewrite (bind_Ret_eq _ _ w tt _ (stopApp_unlocked b w Hmu)).
      rewrite !stopApp_unlocked by reflexivity.
      unfold observe, regstate; cbn. rewrite Hn.
      f_equal. f_equal; [f_equal|]; set_solver.
Qed.

Definition hello_app : appInfo := mkAppInfo (str "hello") (str "/t/hello") 4000 0 0 0 None.
Definition hello_world : World :=
  mkWorld {[str "hello" := hello_app]} false {[0]} {[0]} 1 1 [Spawn 0 (str "/t/hello") (str "./run") 4000].
Definition hello_stopped : World :=
  mkWorld (delete (str "hello") {[str "hello" := hello_app]}) false ({[0]} ∖ {[0]}) ({[0]} ∖ {[0]}) 1 1
    (([Spawn 0 (str "/t/hello") (str "./run") 4000] ++ [Kill 0]) ++ [WatchClose 0]).

Lemma stopApp_idempotent_commutative_witness :
  exists w2, stopApp hello_app hello_stopped = Ret tt w2 /\ regstate w2 = regstate hello_stopped.
Proof.
  apply (proj1 stopApp_idempotent_commutative hello_app hello_world hello_stopped).
  rewrite stopApp_unlocked by reflexivity. reflexivity.
Defined.

(** *** The idle reaper *)

Section ReaperFacts.

Lemma reap_loop_blocks (tm : Z) (l : list (gostring * appInfo)) (w : World) :
  mu w = true -> Exists (fun ka => (tm - t (snd ka) > idleTTL)%Z) l ->
  reap_loop tm l w = Stuck w.
Proof.
  intros Hmu. induction l as [|[k a] rest IH]; intros Hex; [inversion Hex|].
  cbn [reap_loop]. case_bool_decide as Hi.
  - apply bind_Stuck_eq. apply stopApp_locked. exact Hmu.
  - inversion Hex as [? ? Hx|? ? Hrest]; subst; [contradiction|].
    rewrite (bind_Ret_eq _ _ w tt w) by reflexivity. apply IH. exact Hrest.
Qed.

Lemma Lock_unlocked (w : World) : mu w = false -> Lock w = Ret tt (with_mu true w).
Proof. intros Hmu. unfold Lock. rewrite Hmu. reflexivity. Qed.

Lemma Lock_locked (w : World) : mu w = true -> Lock w = Stuck w.
Proof. intros Hmu. unfold Lock. rewrite Hmu. reflexivity. Qed.

End ReaperFacts.

(** C2 (code_bug): the reaper's tick takes [mu] and, for an idle
    record, calls [stopApp], whose first action is [mu.Lock()] again;
    [sync.Mutex] is not reentrant, so the reaper blocks forever with
    [mu] held: the idle record is not removed, its child is not killed,
    and every later [stopApp] (and every request that must take [mu])
    blocks too. *)
Theorem reaper_tick_deadlocks (env : Env) (w : World) (n : gostring) (a : appInfo) :
  mu w = false -> apps w !! n = Some a -> (now env - t a > idleTTL)%Z ->
  reaper_tick env w = Stuck (with_mu true w) /\
  apps (with_mu true w) !! n = Some a /\ live (with_mu true w) = live w /\
  (forall b, stopApp b (with_mu true w) = Stuck (with_mu true w)) /\
  reaper_tick env (with_mu true w) = Stuck (with_mu true w).
Proof.
  intros Hmu Hn Hidle.
  assert (Hb : forall b, stopApp b (with_mu true w) = Stuck (with_mu true w))
    by (intros b; apply stopApp_locked; reflexivity).
  split; [|split; [exact Hn|split; [reflexivity|split; [exact Hb|]]]].
  - unfold reaper_tick. rewrite (bind_Ret_eq _ _ w tt _ (Lock_unlocked w Hmu)).
    unfold gets. rewrite (bind_Ret_eq _ _ _ (apps w) (with_mu true w)) by reflexivity.
    apply bind_Stuck_eq. apply reap_loop_blocks; [reflexivity|].
    apply Exists_exists. exists (n, a). split; [|exact Hidle].
    apply elem_of_map_to_list. exact Hn.
  - unfold reaper_tick. apply bind_Stuck_eq. apply Lock_locked. reflexivity.
Qed.

Definition env_at (tm : Z) : Env := mkEnv (str "/t") (str "localhost")
  (fun _ => true) (fun _ => true) (fun _ => None) (fun d => [d]) (Some 4000%Z) true (fun _ => true) tm true (fun _ => None).

(** The supervisor serving [hello] (last used at time 0) at its first
    tick past eleven minutes. *)
Lemma reaper_tick_deadlocks_witness :
  reaper_tick (env_at 660) hello_world = Stuck (with_mu true hello_world).
Proof.
  apply (reaper_tick_deadlocks (env_at 660) hello_world (str "hello") hello_app);
    [reflexivity|reflexivity|].
  vm_compute. reflexivity.
Defined.

(** *** Launch failures *)

Section LaunchFacts.

Variables (env : Env) (nm cmd : gostring).
Let d := Join (root env) nm.
Hypothesis Hproc : readProcfile d (read_file env (Join d (str "Procfile"))) = inr cmd.

(** [waitPort] times out: [start] returns the error and the child it
    spawned is still running. *)
Lemma start_timeout (fp : Z) (w : World) :
  listen env = Some fp -> cmd_start_ok env = true -> port_ready env fp = false ->
  start env nm w = Ret (inl (ErrTimeout fp))
    (mkWorld (apps w) (mu w) (live w ∪ {[next_pid w]}) (open_watchers w) (S (next_pid w))
       (next_wid w) (trace w ++ [Spawn (next_pid w) d cmd fp])).
Proof.
  intros Hl Hs Hp. unfold start. fold d. rewrite Hproc.
  rewrite (bind_Ret_eq _ _ w fp w) by (unfold freePort; rewrite Hl; reflexivity).
  cbv beta. rewrite Hs.
  erewrite (bind_Ret_eq (spawn d cmd fp)) by reflexivity.
  cbv beta. rewrite Hp. reflexivity.
Qed.

(** [net.Listen] fails: [start] panics before spawning anything. *)
Lemma start_listen_fails (w : World) :
  listen env = None -> start env nm w = Panic w.
Proof. intros Hl. unfold start. fold d. rewrite Hproc. unfold freePort. rewrite Hl. reflexivity. Qed.

End LaunchFacts.

Section HandlerFacts.

Variables (env : Env) (host : gostring).
Let nm := routeName (domain env) host.
Let d := Join (root env) nm.
Hypothesis Hdir : is_dir env d = true.
Hypothesis Hpf : exists_file env (Join d (str "Procfile")) = true.

(** The handler on a name with a Procfile, up to the call to [start]. *)
Lemma handler_launch (w : World) :
  mu w = false -> apps w !! nm = None ->
  handler env host w =
    (r ← start env nm;
     match r with
     | inl e => Unlock;; mret (Error500 e)
     | inr newApp =>
         modify (fun w0 => with_apps (<[nm := newApp]> (apps w0)) w0);;
         touch nm newApp (now env);; Unlock;; mret (Proxied (p newApp))
     end) (with_mu true w).
Proof.
  intros Hmu Hnone. unfold handler. fold nm. fold d. rewrite Hdir, Hpf. cbn [negb].
  rewrite (bind_Ret_eq _ _ w tt _ (Lock_unlocked w Hmu)).
  unfold gets. rewrite (bind_Ret_eq _ _ _ (apps w) (with_mu true w)) by reflexivity.
  rewrite Hnone. reflexivity.
Qed.

Lemma handler_locked (w : World) : mu w = true -> handler env host w = Stuck w.
Proof.
  intros Hmu. unfold handler. fold nm. fold d. rewrite Hdir, Hpf. cbn [negb].
  apply bind_Stuck_eq. apply Lock_locked. exact Hmu.
Qed.

End HandlerFacts.

(** C1 (code_bug): when the readiness probe times out, [start] returns
    its error without killing the child it spawned ([return nil, err]
    right after [waitPort]).  The handler answers 500 with the error and
    inserts no record, so the next request launches again, but the
    first child keeps running (its pid stays in [live]) and nothing
    ever kills it. *)
Theorem handler_timeout_keeps_child (env : Env) (host cmd : gostring) (fp : Z) (w : World) :
  is_dir env (Join (root env) (routeName (domain env) host)) = true ->
  exists_file env (Join (Join (root env) (routeName (domain env) host)) (str "Procfile")) = true ->
  readProcfile (Join (root env) (routeName (domain env) host))
    (read_file env (Join (Join (root env) (routeName (domain env) host)) (str "Procfile"))) = inr cmd ->
  listen env = Some fp -> cmd_start_ok env = true -> port_ready env fp = false ->
  mu w = false -> apps w !! routeName (domain env) host = None ->
  handler env host w =
    Ret (Error500 (ErrTimeout fp))
      (mkWorld (apps w) false (live w ∪ {[next_pid w]}) (open_watchers w) (S (next_pid w))
         (next_wid w) (trace w ++ [Spawn (next_pid w) (Join (root env) (routeName (domain env) host)) cmd fp])).
Proof.
  intros Hdir Hpf Hproc Hl Hs Hp Hmu Hnone.
  rewrite (handler_launch env host Hdir Hpf w Hmu Hnone).
  rewrite (bind_Ret_eq _ _ _ _ _ (start_timeout env _ cmd Hproc fp (with_mu true w) Hl Hs Hp)).
  reflexivity.
Qed.

(** The Procfile of [/t/hello] names a command that never listens. *)
Definition slow_env (pid_port : Z) : Env := mkEnv (str "/t") (str "localhost")
  (fun _ => true) (fun _ => true)
  (fun f => if bool_decide (f = str "/t/hello/Procfile") then Some (str "web: sleep 60") else None)
  (fun d => [d]) (Some pid_port) true (fun _ => false) 0 true (fun _ => None).

(** Two requests for [hello.localhost]: each answers 500, and after the
    second both children (pids 0 and 1) are still running. *)
Lemma handler_timeout_keeps_child_witness :
  exists w1 w2,
    handler (slow_env 4000) (str "hello.localhost") init_world = Ret (Error500 (ErrTimeout 4000)) w1 /\
    handler (slow_env 4001) (str "hello.localhost") w1 = Ret (Error500 (ErrTimeout 4001)) w2 /\
    apps w2 = ∅ /\ live w2 = ∅ ∪ {[0]} ∪ {[1]}.
Proof.
  eexists. eexists. split; [|split; [|split]].
  - apply (handler_timeout_keeps_child (slow_env 4000) (str "hello.localhost") (str "sleep 60")
             4000 init_world); vm_compute; reflexivity.
  - apply (handler_timeout_keeps_child (slow_env 4001) (str "hello.localhost") (str "sleep 60")
             4001); vm_compute; reflexivity.
  - reflexivity.
  - reflexivity.
Defined.

(** C9 (code_bug): [freePort] drops the error of [net.Listen]; when no
    port can be bound, [l.Addr()] dereferences a nil listener and the
    handler goroutine panics while holding [mu].  [net/http] recovers the
    panic by closing the connection, so the request gets no 500 and no
    [ResourceUnavailable] error; [mu] is never released, so later
    launches, requests to running apps, [stopApp] and the reaper all
    block. *)
Theorem handler_listen_failure (env : Env) (host cmd : gostring) (w : World) :
  is_dir env (Join (root env) (routeName (domain env) host)) = true ->
  exists_file env (Join (Join (root env) (routeName (domain env) host)) (str "Procfile")) = true ->
  readProcfile (Join (root env) (routeName (domain env) host))
    (read_file env (Join (Join (root env) (routeName (domain env) host)) (str "Procfile"))) = inr cmd ->
  listen env = None -> mu w = false -> apps w !! routeName (domain env) host = None ->
  handler env host w = Panic (with_mu true w) /\
  handler env host (with_mu true w) = Stuck (with_mu true w) /\
  (forall b, stopApp b (with_mu true w) = Stuck (with_mu true w)) /\
  (forall env', reaper_tick env' (with_mu true w) = Stuck (with_mu true w)).
Proof.
  intros Hdir Hpf Hproc Hl Hmu Hnone. split; [|split; [|split]].
  - rewrite (handler_launch env host Hdir Hpf w Hmu Hnone).
    apply bind_Panic_eq. apply (start_listen_fails env _ cmd Hproc). exact Hl.
  - apply handler_locked; [exact Hdir|exact Hpf|reflexivity].
  - intros b. apply stopApp_locked. reflexivity.
  - intros env'. unfold reaper_tick. apply bind_Stuck_eq. apply Lock_locked. reflexivity.
Qed.

Definition noport_env : Env := mkEnv (str "/t") (str "localhost")
  (fun _ => true) (fun _ => true)
  (fun f => if bool_decide (f = str "/t/hello/Procfile") then Some (str "web: ./run") else None)
  (fun d => [d]) None true (fun _ => true) 0 true (fun _ => None).

Lemma handler_listen_failure_witness :
  handler noport_env (str "hello.localhost") init_world = Panic (with_mu true init_world).
Proof.
  apply (handler_listen_failure noport_env (str "hello.localhost") (str "./run") init_world);
    vm_compute; reflexivity.
Defined.

Section WatchFacts.

Lemma fold_log_actions (f : gostring -> action) (l : list gostring) (w : World) :
  fold_left (fun w' d => log_action (f d) w') l w =
  mkWorld (apps w) (mu w) (live w) (open_watchers w) (next_pid w) (next_wid w) (trace w ++ map f l).
Proof.
  revert w. induction l as [|x l IH]; intros w; simpl.
  - rewrite app_nil_r. destruct w; reflexivity.
  - rewrite IH. cbn. rewrite <- app_assoc. reflexivity.
Qed.

Lemma addRecursive_open (env : Env) (wid : nat) (path : gostring) (w : World) :
  wid ∈ open_watchers w ->
  addRecursive env wid path w =
  Ret tt (mkWorld (apps w) (mu w) (live w) (open_watchers w) (next_pid w) (next_wid w)
            (trace w ++ map (WatchAdd wid) (walk_dirs env path))).
Proof.
  intros Hw. unfold addRecursive. rewrite bool_decide_eq_true_2 by exact Hw.
  rewrite fold_log_actions. reflexivity.
Qed.

End WatchFacts.

(** The app [hello] watched with the pattern set [src/*]. *)
Definition watched_app : appInfo :=
  mkAppInfo (str "hello") (str "/t/hello") 4000 0 0 0
    (Some (CompileIgnoreFile (fun _ => None) (str "src/*"))).
Definition watched_world : World :=
  mkWorld {[str "hello" := watched_app]} false {[0]} {[0]} 1 1 [Spawn 0 (str "/t/hello") (str "./run") 4000].

(** C7 (code_bug): on a creation event for a directory that the pattern
    set matches (an open watcher, [mu] free), [onEvent] adds every
    directory of the new subtree to the watcher, but the same condition
    [matchInverted] then guards the reload, so the same event stops the
    app: the child is killed, the watcher with the new directories is
    closed and the record removed.  The extension never outlives the
    event, and the creation alone restarts the app. *)
Theorem onEvent_dir_create (env : Env) (a : appInfo) (ev : gostring) (w : World) :
  ev <> Join (dir a) (str ".watch") -> is_dir env ev = true -> matchInverted ev (ig a) = true ->
  mu w = false -> watcher a ∈ open_watchers w ->
  onEvent env a ev true w =
  Ret tt (mkWorld (delete (name a) (apps w)) false (live w ∖ {[c a]}) (open_watchers w ∖ {[watcher a]})
            (next_pid w) (next_wid w)
            (((trace w ++ map (WatchAdd (watcher a)) (walk_dirs env ev)) ++ [Kill (c a)])
               ++ [WatchClose (watcher a)])).
Proof.
  intros Hne Hdir Hm Hmu Hw. unfold onEvent.
  rewrite bool_decide_eq_false_2 by exact Hne.
  rewrite (bind_Ret_eq _ _ w tt w) by reflexivity. cbv beta.
  rewrite Hdir, Hm. cbn [andb].
  rewrite (bind_Ret_eq _ _ _ _ _ (addRecursive_open env (watcher a) ev w Hw)).
  cbv beta. apply stopApp_unlocked. exact Hmu.
Qed.

Lemma onEvent_dir_create_witness :
  onEvent (env_at 0) watched_app (str "/t/hello/src/lib") true watched_world =
  Ret tt (mkWorld (delete (str "hello") (apps watched_world)) false ({[0]} ∖ {[0]}) ({[0]} ∖ {[0]}) 1 1
            (((trace watched_world ++ [WatchAdd 0 (str "/t/hello/src/lib")]) ++ [Kill 0]) ++ [WatchClose 0])).
Proof.
  apply (onEvent_dir_create (env_at 0) watched_app (str "/t/hello/src/lib") watched_world);
    vm_compute; try reflexivity; try discriminate.
Defined.

(** *** Concurrent first requests *)

Section RequestFacts.

Lemma count_spawns_app (l1 l2 : list action) :
  count_spawns (l1 ++ l2) = count_spawns l1 + count_spawns l2.
Proof. induction l1 as [|x l1 IH]; simpl; [reflexivity|rewrite IH; lia]. Qed.

Lemma count_spawns_WatchAdd (wid : nat) (l : list gostring) :
  count_spawns (map (WatchAdd wid) l) = 0.
Proof. induction l; simpl; auto. Qed.

Lemma readProcfile_spawned (d : gostring) (x : option gostring) (e : goerr) :
  readProcfile d x = inl e -> spawned (inl e) = 0.
Proof.
  unfold readProcfile. destruct x; [case_bool_decide|]; intros Hr; first [discriminate | injection Hr as <-; reflexivity].
Qed.

Lemma start_Ret (env : Env) (nm : gostring) (w w' : World) (r : goerr + appInfo) :
  start env nm w = Ret r w' ->
  apps w' = apps w /\ mu w' = mu w /\ spawns w' = spawns w + spawned r.
Proof.
  unfold start. destruct (readProcfile _ _) as [e|cmd] eqn:Hr.
  - intros H. injection H as <- <-. rewrite (readProcfile_spawned _ _ _ Hr). split; [reflexivity|split; [reflexivity|lia]].
  - unfold freePort. destruct (listen env) as [fp|]; [|discriminate].
    unfold mbind at 1, M_bind at 1, mret at 1, M_ret at 1.
    destruct (cmd_start_ok env); [|intros H; injection H as <- <-; split; [reflexivity|split; [reflexivity|cbn; lia]]].
    unfold mbind at 1, M_bind at 1, spawn at 1. cbv beta iota zeta.
    destruct (port_ready env fp).
    + unfold startWatcher. destruct (watcher_ok env); [|discriminate].
      unfold mbind, M_bind, new_watcher, mret, M_ret. cbn.
      rewrite addRecursive_open by (cbn; set_solver).
      intros H. injection H as <- <-. cbn. unfold spawns. cbn.
      rewrite !count_spawns_app, count_spawns_WatchAdd. cbn.
      split; [reflexivity|split; [reflexivity|lia]].
    + intros H. injection H as <- <-. unfold spawns. cbn.
      rewrite count_spawns_app. cbn. split; [reflexivity|split; [reflexivity|lia]].
Qed.

Lemma start_Panic (env : Env) (nm : gostring) (w w' : World) :
  start env nm w = Panic w' ->
  apps w' = apps w /\ mu w' = mu w /\ (spawns w' = spawns w \/ spawns w' = S (spawns w)).
Proof.
  unfold start. destruct (readProcfile _ _) as [e|cmd]; [discriminate|].
  unfold freePort. destruct (listen env) as [fp|].
  - unfold mbind at 1, M_bind at 1, mret at 1, M_ret at 1.
    destruct (cmd_start_ok env); [|discriminate].
    unfold mbind at 1, M_bind at 1, spawn at 1. cbv beta iota zeta.
    destruct (port_ready env fp); [|discriminate].
    unfold startWatcher. destruct (watcher_ok env).
    + unfold mbind, M_bind, new_watcher, mret, M_ret. cbn.
      rewrite addRecursive_open by (cbn; set_solver). discriminate.
    + intros H. injection H as <-. unfold spawns. cbn.
      rewrite count_spawns_app. cbn. split; [reflexivity|split; [reflexivity|lia]].
  - unfold mbind, M_bind. intros H. injection H as <-. auto.
Qed.

Lemma Lock_Ret (w w' : World) : Lock w = Ret tt w' -> mu w = false /\ w' = with_mu true w.
Proof. unfold Lock. destruct (mu w); [discriminate|]. intros H. injection H as <-. auto. Qed.

Lemma Unlock_Ret (w w' : World) : Unlock w = Ret tt w' -> w' = with_mu false w.
Proof. unfold Unlock, modify. intros H. injection H as <-. reflexivity. Qed.

Lemma count_insert (f : hpc -> bool) (l : list hpc) (i : nat) (x y : hpc) :
  l !! i = Some y ->
  count f (<[i := x]> l) + (if f y then 1 else 0) = count f l + (if f x then 1 else 0).
Proof.
  revert i. induction l as [|h l IH]; intros [|i] Hi; simpl in *; try discriminate.
  - injection Hi as ->. lia.
  - specialize (IH i Hi). lia.
Qed.

Lemma count_pos (f : hpc -> bool) (l : list hpc) (i : nat) (y : hpc) :
  l !! i = Some y -> f y = true -> 1 <= count f l.
Proof.
  revert i. induction l as [|h l IH]; intros [|i] Hi Hf; simpl in *; try discriminate.
  - injection Hi as ->. rewrite Hf. lia.
  - specialize (IH i Hi Hf). lia.
Qed.

Lemma count_le (f g h : hpc -> bool) (l : list hpc) :
  (forall x, (if f x then 1 else 0) + (if g x then 1 else 0) <= (if h x then 1 else 0)) ->
  count f l + count g l <= count h l.
Proof. intros Hx. induction l as [|y l IH]; simpl; [lia|]. specialize (Hx y). lia. Qed.

Lemma starting_inserting_critical (l : list hpc) :
  count starting l + count inserting l + count dead l <= count critical l.
Proof. induction l as [|[] l IH]; simpl; lia. Qed.

Lemma touching_starting_critical (l : list hpc) :
  count touching l + count starting l <= count critical l.
Proof. apply count_le. intros []; simpl; lia. Qed.

Lemma busy_critical (l : list hpc) :
  count touching l + count starting l + count inserting l + count dead l <= count critical l.
Proof. induction l as [|[] l IH]; simpl; lia. Qed.

Lemma dead_spawned_dead (l : list hpc) : count dead_spawned l <= count dead l.
Proof. induction l as [|[| | | | | |[]] l IH]; simpl; lia. Qed.

Lemma count_repeat_HLock (f : hpc -> bool) (n : nat) :
  f HLock = false -> count f (repeat HLock n) = 0.
Proof. intros Hf. induction n; simpl; [reflexivity|rewrite Hf, IHn; reflexivity]. Qed.

(** The invariant of the requests for one name: the requests holding
    [mu] are exactly one when [mu] is held and none otherwise; the
    children spawned are those of the timed-out launches, of the
    launched record not yet inserted, of a launch that panicked after
    spawning, and of the record in the registry; no record exists while
    a request is launching, inserting or dead after a panic; one exists
    while a request is touching it. *)
Definition req_inv (nm : gostring) (s : World * list hpc) : Prop :=
  let '(w, ths) := s in
  count critical ths = (if mu w then 1 else 0) /\
  spawns w = count timed_out ths + count inserting ths + count dead_spawned ths + present nm w /\
  (count starting ths + count inserting ths + count dead ths <> 0 -> apps w !! nm = None) /\
  (count touching ths <> 0 -> apps w !! nm <> None).

Lemma req_inv_init (nm : gostring) (n : nat) : req_inv nm (init_world, first_requests n).
Proof.
  unfold first_requests, req_inv, present, spawns.
  rewrite !count_repeat_HLock by reflexivity. cbn. rewrite lookup_empty.
  repeat split; intros; first [lia | apply lookup_empty].
Qed.

Ltac counts Hi x :=
  pose proof (count_insert critical _ _ x _ Hi);
  pose proof (count_insert timed_out _ _ x _ Hi);
  pose proof (count_insert inserting _ _ x _ Hi);
  pose proof (count_insert starting _ _ x _ Hi);
  pose proof (count_insert touching _ _ x _ Hi);
  pose proof (count_insert dead _ _ x _ Hi);
  pose proof (count_insert dead_spawned _ _ x _ Hi);
  cbn [critical timed_out inserting starting touching dead dead_spawned] in *.

Lemma req_inv_step (nm : gostring) (s s' : World * list hpc) :
  req_inv nm s -> hstep nm s s' -> req_inv nm s'.
Proof.
  intros Hinv Hs. destruct Hs as
    [i w w' ths Hi Hl | i w ths a Hi Ha | i w ths Hi Ha | i w w' w'' ths env e Hi Hst Hu
    | i w w' ths env a Hi Hst | i w w' ths env b Hi Hst Hb | i w w' ths a Hi Hm | i w w' w'' ths a tm Hi Ht Hu];
    destruct Hinv as (H1 & H2 & H3 & H4); unfold req_inv.
  - (* mu.Lock() *)
    apply Lock_Ret in Hl as [Hmu ->]. counts Hi HLookup.
    rewrite Hmu in H1. unfold spawns, present in *. cbn. repeat split; intros; lia || auto.
    + apply H3. lia.
    + apply H4. lia.
  - (* the record exists *)
    counts Hi (HTouch a). repeat split; [lia|lia|intros; apply H3; lia|congruence].
  - (* no record *)
    counts Hi HStart. repeat split; [lia|unfold present in *; lia|auto|intros; apply H4; lia].
  - (* start failed, mu.Unlock() *)
    apply start_Ret in Hst as (Happs & Hmu & Hsp). apply Unlock_Ret in Hu as ->.
    pose proof (count_pos critical _ _ _ Hi eq_refl) as Hc.
    pose proof (count_pos starting _ _ _ Hi eq_refl) as Hst.
    counts Hi (HDone (Error500 e)).
    assert (Hnone : apps w !! nm = None) by (apply H3; lia).
    unfold spawns, present in *. cbn. rewrite Happs, Hnone. rewrite Hnone in H2.
    destruct (mu w); [|lia].
    pose proof (touching_starting_critical ths).
    destruct e; cbn in *; repeat split; intros; first [exact Hnone | lia].
  - (* start succeeded *)
    apply start_Ret in Hst as (Happs & Hmu & Hsp).
    pose proof (count_pos starting _ _ _ Hi eq_refl) as Hst.
    counts Hi (HInsert a).
    assert (Hnone : apps w !! nm = None) by (apply H3; lia).
    unfold spawns, present in *. rewrite Happs, Hmu, Hnone. rewrite Hnone in H2.
    cbn in Hsp. repeat split; try lia; try (intros; exact Hnone).
    intros Ht. exfalso. assert (count touching ths = 0).
    { destruct (decide (count touching ths = 0)); [assumption|].
      exfalso. apply H4; [assumption|exact Hnone]. }
    lia.
  - (* start panicked *)
    apply start_Panic in Hst as (Happs & Hmu & _).
    pose proof (count_pos starting _ _ _ Hi eq_refl) as Hst.
    counts Hi (HDead b).
    assert (Hnone : apps w !! nm = None) by (apply H3; lia).
    unfold present in *. rewrite Happs, Hmu, Hnone. rewrite Hnone in H2.
    repeat split; try (intros; exact Hnone).
    + lia.
    + destruct b; cbn in *; lia.
    + intros Ht. exfalso. apply (H4 ltac:(lia)). exact Hnone.
  - (* apps[name] = newApp *)
    unfold modify in Hm. injection Hm as <-.
    pose proof (count_pos critical _ _ _ Hi eq_refl) as Hc.
    pose proof (starting_inserting_critical ths) as Hle.
    counts Hi (HTouch a).
    assert (Hnone : apps w !! nm = None) by (apply H3; lia).
    unfold spawns, present in *. cbn [apps with_apps with_mu mu trace]. rewrite lookup_insert_eq. rewrite Hnone in H2.
    destruct (mu w); [|lia].
    repeat split; try lia; intros; first [lia|discriminate].
  - (* a.t = time.Now(); mu.Unlock() *)
    unfold touch, modify in Ht. injection Ht as <-. apply Unlock_Ret in Hu as ->.
    pose proof (count_pos critical _ _ _ Hi eq_refl) as Hc.
    pose proof (count_pos touching _ _ _ Hi eq_refl) as Hto.
    counts Hi (HDone (Proxied (p a))).
    assert (Hsome : apps w !! nm <> None) by (apply H4; lia).
    unfold spawns, present in *. cbn [apps with_apps with_mu mu trace]. rewrite lookup_insert_eq.
    destruct (apps w !! nm) as [b|]; [|congruence].
    destruct (mu w); [|lia].
    pose proof (busy_critical ths).
    repeat split; try lia; intros; first [discriminate | exfalso; lia].
Qed.

Lemma req_inv_reach (nm : gostring) (s s' : World * list hpc) :
  req_inv nm s -> reach nm s s' -> req_inv nm s'.
Proof. intros H Hr. induction Hr; eauto using req_inv_step. Qed.

End RequestFacts.

(** The Procfile of [/t/hello] names a command that listens at once. *)
Definition ready_env (port : Z) : Env := mkEnv (str "/t") (str "localhost")
  (fun _ => true) (fun _ => true)
  (fun f => if bool_decide (f = str "/t/hello/Procfile") then Some (str "web: ./run") else None)
  (fun d => [d]) (Some port) true (fun _ => true) 0 true (fun _ => None).

(** Two first requests for [hello]: the first launch times out (the
    child does not listen within the deadline), then the second request
    launches again and succeeds. *)
Lemma timeout_then_launch :
  exists w, reach (str "hello") (init_world, first_requests 2)
              (w, [HDone (Error500 (ErrTimeout 4000)); HDone (Proxied 4001)]) /\
            spawns w = 2 /\ present (str "hello") w = 1 /\ mu w = false.
Proof.
  eexists. split.
  - eapply reach_step; [eapply (hs_lock _ 0); reflexivity|].
    eapply reach_step; [eapply (hs_miss _ 0); reflexivity|].
    eapply reach_step; [eapply (hs_start_err _ 0 _ _ _ _ (slow_env 4000) (ErrTimeout 4000)); reflexivity|].
    eapply reach_step; [eapply (hs_lock _ 1); reflexivity|].
    eapply reach_step; [eapply (hs_miss _ 1); reflexivity|].
    eapply reach_step; [eapply (hs_start_ok _ 1 _ _ _ (ready_env 4001)); reflexivity|].
    eapply reach_step; [eapply (hs_insert _ 1); reflexivity|].
    eapply reach_step; [eapply (hs_touch _ 1 _ _ _ _ _ 0); reflexivity|].
    apply reach_refl.
  - split; [|split]; reflexivity.
Qed.

(** Two first requests for [hello]: the first launches and inserts the
    record, the second finds it. *)
Lemma launch_then_hit :
  exists w, reach (str "hello") (init_world, first_requests 2)
              (w, [HDone (Proxied 4000); HDone (Proxied 4000)]) /\
            present (str "hello") w = 1.
Proof.
  eexists. split.
  - eapply reach_step; [eapply (hs_lock _ 0); reflexivity|].
    eapply reach_step; [eapply (hs_miss _ 0); reflexivity|].
    eapply reach_step; [eapply (hs_start_ok _ 0 _ _ _ (ready_env 4000)); reflexivity|].
    eapply reach_step; [eapply (hs_insert _ 0); reflexivity|].
    eapply reach_step; [eapply (hs_touch _ 0 _ _ _ _ _ 0); reflexivity|].
    eapply reach_step; [eapply (hs_lock _ 1); reflexivity|].
    eapply reach_step; [eapply (hs_hit _ 1); reflexivity|].
    eapply reach_step; [eapply (hs_touch _ 1 _ _ _ _ _ 0); reflexivity|].
    apply reach_refl.
  - reflexivity.
Qed.

(** C3 (counterexample): two concurrent first requests for [hello]
    finish with two children spawned although the lock is held across
    the launch: the first launch timed out, left its child running and
    inserted no record, so the second request launched again. *)
Lemma concurrent_first_requests_two_spawns :
  exists w, reach (str "hello") (init_world, first_requests 2)
              (w, [HDone (Error500 (ErrTimeout 4000)); HDone (Proxied 4001)]) /\
            spawns w = 2.
Proof.
  destruct timeout_then_launch as (w & Hr & Hs & _). exists w. split; assumption.
Qed.

(** C3 (amended): the registry is a map, so it holds at most one record
    per name.  Among any number of concurrent first requests for a name,
    at every instant exactly one request holds [mu] between its lookup
    and its release when [mu] is held, and none otherwise; the children
    spawned are one per launch that timed out, one per launch that
    panicked after spawning, plus one for the record (launched and being
    inserted, or in the registry).  So as long as no launch has timed
    out, at most one child has been spawned, and exactly one once the
    record exists. *)
Theorem concurrent_first_requests (nm : gostring) (n : nat) (w : World) (ths : list hpc) :
  reach nm (init_world, first_requests n) (w, ths) ->
  count critical ths = (if mu w then 1 else 0) /\
  spawns w = count timed_out ths + count inserting ths + count dead_spawned ths + present nm w /\
  (count timed_out ths = 0 -> spawns w <= 1 /\ (present nm w = 1 -> spawns w = 1)).
Proof.
  intros Hr. pose proof (req_inv_reach nm _ _ (req_inv_init nm n) Hr) as (H1 & H2 & H3 & _).
  split; [exact H1|split; [exact H2|]].
  intros Ht.
  pose proof (starting_inserting_critical ths) as Hc.
  pose proof (dead_spawned_dead ths) as Hd.
  assert (Hcrit : count critical ths <= 1) by (rewrite H1; destruct (mu w); lia).
  unfold present in *. destruct (apps w !! nm) eqn:Ha.
  - assert (count starting ths + count inserting ths + count dead ths = 0).
    { destruct (decide (count starting ths + count inserting ths + count dead ths = 0)) as [|Hne];
        [assumption|]. specialize (H3 Hne). congruence. }
    split; [lia|intros _; lia].
  - split; [lia|discriminate].
Qed.

Lemma concurrent_first_requests_witness :
  (exists w, reach (str "hello") (init_world, first_requests 2)
               (w, [HDone (Error500 (ErrTimeout 4000)); HDone (Proxied 4001)]) /\
             spawns w = 1 + 0 + 0 + 1) /\
  (exists w, reach (str "hello") (init_world, first_requests 2)
               (w, [HDone (Proxied 4000); HDone (Proxied 4000)]) /\
             spawns w = 1).
Proof.
  split.
  - destruct timeout_then_launch as (w & Hr & _ & Hp & _). exists w. split; [exact Hr|].
    rewrite (proj1 (proj2 (concurrent_first_requests (str "hello") 2 w _ Hr))), Hp. reflexivity.
  - destruct launch_then_hit as (w & Hr & Hp). exists w. split; [exact Hr|].
    apply (proj2 (proj2 (proj2 (concurrent_first_requests (str "hello") 2 w _ Hr)) eq_refl)).
    exact Hp.
Defined.

(** ** Further properties of the code *)

(** *** The pattern matcher *)

(** X: in [MatchesPath] the last pattern that matches decides: a plain
    one makes the path match, a negated one ([!P]) makes it not match,
    whatever the earlier patterns said. *)
Theorem MatchesPath_last_match (gi : GitIgnore) (ip : IgnorePattern) (f : gostring) :
  MatchesPath (gi ++ [ip]) f = if Pattern ip f then negb (Negate ip) else MatchesPath gi f.
Proof.
  unfold MatchesPath. rewrite fold_left_app. cbn.
  destruct (Pattern ip f), (Negate ip); cbn; try reflexivity.
  destruct (fold_left _ gi false); reflexivity.
Qed.

(** *** Requests *)

Section RequestPaths.

Variables (env : Env) (host : gostring).
Let nm := routeName (domain env) host.
Let d := Join (root env) nm.

Lemma handler_nodir_eq (w : World) : is_dir env d = false -> handler env host w = Ret NotFound w.
Proof. intros H. unfold handler. fold nm. fold d. rewrite H. reflexivity. Qed.

Lemma handler_static_eq (w : World) :
  is_dir env d = true -> exists_file env (Join d (str "Procfile")) = false ->
  handler env host w = Ret (StaticFiles d) w.
Proof. intros H1 H2. unfold handler. fold nm. fold d. rewrite H1, H2. reflexivity. Qed.

Hypothesis Hdir : is_dir env d = true.
Hypothesis Hpf : exists_file env (Join d (str "Procfile")) = true.

Lemma handler_hit_eq (w : World) (a : appInfo) :
  mu w = false -> apps w !! nm = Some a ->
  handler env host w =
  Ret (Proxied (p a))
    (mkWorld (<[nm := set_t a (now env)]> (apps w)) false (live w) (open_watchers w)
       (next_pid w) (next_wid w) (trace w)).
Proof.
  intros Hmu Ha. unfold handler. fold nm. fold d. rewrite Hdir, Hpf. cbn [negb].
  rewrite (bind_Ret_eq _ _ w tt _ (Lock_unlocked w Hmu)).
  unfold gets. rewrite (bind_Ret_eq _ _ _ (apps w) (with_mu true w)) by reflexivity.
  rewrite Ha. reflexivity.
Qed.

(** The record [start] builds for a successful launch. *)
Definition launched (cmd : gostring) (fp : Z) (w : World) : appInfo :=
  mkAppInfo nm d fp (next_pid w) (now env) (next_wid w)
    (option_map (CompileIgnoreFile (regexp_ext env)) (read_file env (Join d (str ".watch")))).

Lemma start_ok_eq (cmd : gostring) (fp : Z) (w : World) :
  readProcfile d (read_file env (Join d (str "Procfile"))) = inr cmd ->
  listen env = Some fp -> cmd_start_ok env = true -> port_ready env fp = true ->
  watcher_ok env = true ->
  start env nm w =
  Ret (inr (launched cmd fp w))
    (mkWorld (apps w) (mu w) (live w ∪ {[next_pid w]}) (open_watchers w ∪ {[next_wid w]})
       (S (next_pid w)) (S (next_wid w))
       (((trace w ++ [Spawn (next_pid w) d cmd fp]) ++ [WatchNew (next_wid w)])
          ++ map (WatchAdd (next_wid w)) (walk_dirs env d))).
Proof.
  intros Hproc Hl Hs Hp Hw. unfold start. fold d. rewrite Hproc.
  rewrite (bind_Ret_eq _ _ w fp w) by (unfold freePort; rewrite Hl; reflexivity).
  cbv beta. rewrite Hs.
  erewrite (bind_Ret_eq (spawn d cmd fp)) by reflexivity.
  cbv beta. rewrite Hp.
  unfold startWatcher, mbind at 1, M_bind at 1. cbn [dir]. rewrite Hw.
  unfold mbind at 1, M_bind at 1, new_watcher at 1.
  unfold mbind at 1, M_bind at 1.
  rewrite addRecursive_open by (cbn; set_solver).
  reflexivity.
Qed.

Lemma handler_launch_ok_eq (cmd : gostring) (fp : Z) (w : World) :
  readProcfile d (read_file env (Join d (str "Procfile"))) = inr cmd ->
  listen env = Some fp -> cmd_start_ok env = true -> port_ready env fp = true ->
  watcher_ok env = true -> mu w = false -> apps w !! nm = None ->
  handler env host w =
  Ret (Proxied fp)
    (mkWorld (<[nm := launched cmd fp w]> (apps w)) false (live w ∪ {[next_pid w]})
       (open_watchers w ∪ {[next_wid w]}) (S (next_pid w)) (S (next_wid w))
       (((trace w ++ [Spawn (next_pid w) d cmd fp]) ++ [WatchNew (next_wid w)])
          ++ map (WatchAdd (next_wid w)) (walk_dirs env d))).
Proof.
  intros Hproc Hl Hs Hp Hw Hmu Hnone.
  rewrite (handler_launch env host Hdir Hpf w Hmu Hnone).
  rewrite (bind_Ret_eq _ _ _ _ _ (start_ok_eq cmd fp (with_mu true w) Hproc Hl Hs Hp Hw)).
  unfold mbind, M_bind, modify, touch, Unlock, mret, M_ret. cbn.
  rewrite insert_insert_eq. reflexivity.
Qed.

End RequestPaths.

(** X: a request whose directory does not exist is answered 404, and
    one whose directory has no Procfile is served as static files;
    neither takes [mu] nor changes any state, so both keep working while
    [mu] is held. *)
Theorem handler_no_lock_paths (env : Env) (host : gostring) (w : World) :
  (is_dir env (appDir (root env) (domain env) host) = false ->
   handler env host w = Ret NotFound w) /\
  (is_dir env (appDir (root env) (domain env) host) = true ->
   exists_file env (Join (appDir (root env) (domain env) host) (str "Procfile")) = false ->
   handler env host w = Ret (StaticFiles (appDir (root env) (domain env) host)) w).
Proof.
  split.
  - apply handler_nodir_eq.
  - apply handler_static_eq.
Qed.

(** [/t/site] is a directory without a Procfile. *)
Definition site_env : Env := mkEnv (str "/t") (str "localhost")
  (fun _ => true) (fun f => negb (bool_decide (f = str "/t/site/Procfile")))
  (fun _ => None) (fun d => [d]) (Some 4000%Z) true (fun _ => true) 0 true (fun _ => None).

Lemma handler_no_lock_paths_witness :
  handler site_env (str "site.localhost") (with_mu true hello_world) =
  Ret (StaticFiles (str "/t/site")) (with_mu true hello_world).
Proof.
  apply (proj2 (handler_no_lock_paths site_env (str "site.localhost") (with_mu true hello_world)));
    vm_compute; reflexivity.
Defined.

(** X: a request for an app that has a record proxies to the record's
    port without launching anything: the record's last-use time becomes
    [time.Now()], [mu] is released, and no child, watcher or other
    effect is added. *)
Theorem handler_running_app (env : Env) (host : gostring) (w : World) (a : appInfo) :
  is_dir env (appDir (root env) (domain env) host) = true ->
  exists_file env (Join (appDir (root env) (domain env) host) (str "Procfile")) = true ->
  mu w = false -> apps w !! routeName (domain env) host = Some a ->
  handler env host w =
  Ret (Proxied (p a))
    (mkWorld (<[routeName (domain env) host := set_t a (now env)]> (apps w)) false (live w)
       (open_watchers w) (next_pid w) (next_wid w) (trace w)).
Proof. intros Hd Hp Hmu Ha. apply handler_hit_eq; assumption. Qed.

Lemma handler_running_app_witness :
  handler (env_at 100) (str "hello.localhost") hello_world =
  Ret (Proxied 4000)
    (mkWorld (<[str "hello" := set_t hello_app 100]> (apps hello_world)) false {[0]} {[0]} 1 1
       (trace hello_world)).
Proof. apply (handler_running_app (env_at 100) (str "hello.localhost") hello_world hello_app); reflexivity. Defined.

(** X: a first request whose launch succeeds spawns one child in the
    app directory with the fresh port, opens one watcher (its id is the
    record's [watcher]) and adds the walked directories to it, inserts
    the record [launched] (name, directory, port, child, [time.Now()],
    watcher and the patterns of [.watch]) under the name, releases
    [mu] and proxies to the port (when [fsnotify.NewWatcher()]
    succeeds). *)
Theorem handler_launch_success (env : Env) (host cmd : gostring) (fp : Z) (w : World) :
  is_dir env (appDir (root env) (domain env) host) = true ->
  exists_file env (Join (appDir (root env) (domain env) host) (str "Procfile")) = true ->
  readProcfile (appDir (root env) (domain env) host)
    (read_file env (Join (appDir (root env) (domain env) host) (str "Procfile"))) = inr cmd ->
  listen env = Some fp -> cmd_start_ok env = true -> port_ready env fp = true ->
  watcher_ok env = true -> mu w = false -> apps w !! routeName (domain env) host = None ->
  handler env host w =
  Ret (Proxied fp)
    (mkWorld (<[routeName (domain env) host := launched env host cmd fp w]> (apps w)) false
       (live w ∪ {[next_pid w]}) (open_watchers w ∪ {[next_wid w]}) (S (next_pid w)) (S (next_wid w))
       (((trace w ++ [Spawn (next_pid w) (appDir (root env) (domain env) host) cmd fp])
           ++ [WatchNew (next_wid w)])
          ++ map (WatchAdd (next_wid w)) (walk_dirs env (appDir (root env) (domain env) host)))).
Proof. intros Hd Hpf Hproc Hl Hs Hp Hw Hmu Hn. apply handler_launch_ok_eq; assumption. Qed.

Lemma handler_launch_success_witness :
  handler (ready_env 4001) (str "hello.localhost") init_world =
  Ret (Proxied 4001)
    (mkWorld (<[str "hello" := launched (ready_env 4001) (str "hello.localhost") (str "./run") 4001 init_world]> ∅)
       false (∅ ∪ {[0]}) (∅ ∪ {[0]}) 1 1
       ((([] ++ [Spawn 0 (str "/t/hello") (str "./run") 4001]) ++ [WatchNew 0])
          ++ [WatchAdd 0 (str "/t/hello")])).
Proof.
  apply (handler_launch_success (ready_env 4001) (str "hello.localhost") (str "./run") 4001 init_world);
    vm_compute; reflexivity.
Defined.

(** X: a first request whose launch fails before any child is spawned
    (the Procfile cannot be opened or has no usable [web:] line, or
    [cmd.Start()] fails) answers 500 with that error and leaves the
    state exactly as it was, with [mu] released. *)
Theorem handler_error_before_spawn (env : Env) (host : gostring) (w : World) (e : goerr) :
  is_dir env (appDir (root env) (domain env) host) = true ->
  exists_file env (Join (appDir (root env) (domain env) host) (str "Procfile")) = true ->
  mu w = false -> apps w !! routeName (domain env) host = None ->
  (readProcfile (appDir (root env) (domain env) host)
     (read_file env (Join (appDir (root env) (domain env) host) (str "Procfile"))) = inl e \/
   (exists cmd, readProcfile (appDir (root env) (domain env) host)
       (read_file env (Join (appDir (root env) (domain env) host) (str "Procfile"))) = inr cmd /\
     listen env <> None /\ cmd_start_ok env = false /\ e = ErrCmdStart)) ->
  handler env host w = Ret (Error500 e) w.
Proof.
  intros Hd Hpf Hmu Hn Hcase.
  rewrite (handler_launch env host Hd Hpf w Hmu Hn).
  assert (Hst : start env (routeName (domain env) host) (with_mu true w) = Ret (inl e) (with_mu true w)).
  { unfold start. destruct Hcase as [Hr|(cmd & Hr & Hl & Hs & ->)].
    - unfold appDir in Hr. rewrite Hr. reflexivity.
    - unfold appDir in Hr. rewrite Hr. unfold freePort.
      destruct (listen env) as [fp|]; [|congruence]. rewrite Hs. reflexivity. }
  rewrite (bind_Ret_eq _ _ _ _ _ Hst).
  destruct w as [ap m lv ow np nw tr]. cbn in Hmu. subst m. reflexivity.
Qed.

(** The Procfile of every app has no [web:] line. *)
Definition noweb_env : Env := mkEnv (str "/t") (str "localhost")
  (fun _ => true) (fun _ => true) (fun _ => Some (str "worker: ./run")) (fun d => [d])
  (Some 4000%Z) true (fun _ => true) 0 true (fun _ => None).

Lemma handler_error_before_spawn_witness :
  handler noweb_env (str "hello.localhost") init_world = Ret (Error500 (ErrNoWeb (str "/t/hello"))) init_world.
Proof.
  apply (handler_error_before_spawn noweb_env (str "hello.localhost") init_world); try reflexivity.
  left. vm_compute. reflexivity.
Defined.

(** X: launch then reuse: after a request that launched the app, a
    later request for the same host (the directory and Procfile still
    there, [mu] free) is proxied to the same port without spawning:
    over both requests exactly one child is spawned. *)
Theorem launch_then_reuse (env env' : Env) (host cmd : gostring) (fp : Z) (w : World) :
  is_dir env (appDir (root env) (domain env) host) = true ->
  exists_file env (Join (appDir (root env) (domain env) host) (str "Procfile")) = true ->
  readProcfile (appDir (root env) (domain env) host)
    (read_file env (Join (appDir (root env) (domain env) host) (str "Procfile"))) = inr cmd ->
  listen env = Some fp -> cmd_start_ok env = true -> port_ready env fp = true ->
  watcher_ok env = true -> mu w = false -> apps w !! routeName (domain env) host = None ->
  root env' = root env -> domain env' = domain env ->
  is_dir env' (appDir (root env) (domain env) host) = true ->
  exists_file env' (Join (appDir (root env) (domain env) host) (str "Procfile")) = true ->
  exists w1 w2, handler env host w = Ret (Proxied fp) w1 /\ handler env' host w1 = Ret (Proxied fp) w2 /\
    spawns w2 = S (spawns w) /\ live w2 = live w ∪ {[next_pid w]}.
Proof.
  intros Hd Hpf Hproc Hl Hs Hp Hw Hmu Hn Hr Hdm Hd' Hpf'.
  eexists. eexists. split; [apply handler_launch_ok_eq; eassumption|].
  split.
  - refine (handler_hit_eq env' host _ _ _ (launched env host cmd fp w) _ _).
    + rewrite Hr, Hdm. exact Hd'.
    + rewrite Hr, Hdm. exact Hpf'.
    + reflexivity.
    + cbn. rewrite Hdm. apply lookup_insert_eq.
  - split; [|reflexivity]. unfold spawns. cbn.
    rewrite !count_spawns_app, count_spawns_WatchAdd. cbn. lia.
Qed.

Lemma launch_then_reuse_witness :
  exists w1 w2, handler (ready_env 4001) (str "hello.localhost") init_world = Ret (Proxied 4001) w1 /\
    handler (ready_env 4001) (str "hello.localhost") w1 = Ret (Proxied 4001) w2 /\
    spawns w2 = S (spawns init_world) /\ live w2 = live init_world ∪ {[next_pid init_world]}.
Proof.
  apply (launch_then_reuse (ready_env 4001) (ready_env 4001) (str "hello.localhost") (str "./run") 4001 init_world);
    vm_compute; reflexivity.
Defined.




(** *** Stopping and watcher events *)

(** X: [stopApp(app)] deletes whatever record is registered under
    [app.name], not necessarily [app]: when a newer record of that name
    is registered (the app was stopped and launched again), it is
    removed from the registry while its child keeps running and its
    watcher stays open; nothing will stop them any more. *)
Theorem stopApp_removes_newer_record (a b : appInfo) (w : World) :
  mu w = false -> apps w !! name a = Some b -> c b <> c a -> watcher b <> watcher a ->
  c b ∈ live w -> watcher b ∈ open_watchers w ->
  exists w', stopApp a w = Ret tt w' /\ apps w' !! name a = None /\
    c b ∈ live w' /\ watcher b ∈ open_watchers w'.
Proof.
  intros Hmu Hb Hc Hw Hl Ho. eexists. split; [apply stopApp_unlocked; exact Hmu|].
  cbn. split; [apply lookup_delete_eq|split; set_solver].
Qed.

(** [hello] launched again (child 1, watcher 1) after the stop of its
    first record [hello_app] (child 0, watcher 0). *)
Definition relaunched_app : appInfo := mkAppInfo (str "hello") (str "/t/hello") 4001 1 0 1 None.
Definition relaunched_world : World :=
  mkWorld {[str "hello" := relaunched_app]} false {[1]} {[1]} 2 2
    [Spawn 0 (str "/t/hello") (str "./run") 4000; Kill 0; WatchClose 0;
     Spawn 1 (str "/t/hello") (str "./run") 4001; WatchNew 1].

Lemma stopApp_removes_newer_record_witness :
  exists w', stopApp hello_app relaunched_world = Ret tt w' /\ apps w' !! str "hello" = None /\
    1 ∈ live w' /\ 1 ∈ open_watchers w'.
Proof.
  apply (stopApp_removes_newer_record hello_app relaunched_app relaunched_world);
    try reflexivity; try discriminate; set_solver.
Defined.

(** X: an event on the [.watch] file stops the app; when the pattern
    set also matches the path of [.watch], the event goroutine calls
    [stopApp] a second time, taking and releasing [mu] again, so the
    two stops are separate critical sections (a request can launch the
    app again between them, and the second stop then deletes the new
    record). *)
Theorem onEvent_watch_file (env : Env) (a : appInfo) (cr : bool) (w : World) :
  is_dir env (Join (dir a) (str ".watch")) = false ->
  onEvent env a (Join (dir a) (str ".watch")) cr w =
  (if matchInverted (Join (dir a) (str ".watch")) (ig a) then (stopApp a;; stopApp a) else stopApp a) w.
Proof.
  intros Hd. unfold onEvent. rewrite bool_decide_eq_true_2 by reflexivity.
  rewrite Hd. cbn [andb].
  unfold mbind, M_bind, mret, M_ret.
  destruct cr; destruct (matchInverted _ _); destruct (stopApp a w) as [[]| |]; reflexivity.
Qed.

(** [hello] watched with the pattern [*], which matches [.watch] too. *)
Definition star_app : appInfo := mkAppInfo (str "hello") (str "/t/hello") 4000 0 0 0
  (Some (CompileIgnoreFile (fun _ => None) (str "*"))).
Definition file_env : Env := mkEnv (str "/t") (str "localhost")
  (fun f => negb (bool_decide (f = str "/t/hello/.watch"))) (fun _ => true) (fun _ => None)
  (fun d => [d]) (Some 4000%Z) true (fun _ => true) 0 true (fun _ => None).

Lemma onEvent_watch_file_witness :
  onEvent file_env star_app (str "/t/hello/.watch") false hello_world =
  (stopApp star_app;; stopApp star_app) hello_world.
Proof.
  apply (onEvent_watch_file file_env star_app false hello_world). vm_compute. reflexivity.
Defined.

(** X: an event on any path other than the app's [.watch] file that
    the pattern set does not match (every path, for an app without a
    [.watch] file) changes nothing: no stop and no new watch, even for a
    new directory. *)
Theorem onEvent_unmatched (env : Env) (a : appInfo) (ev : gostring) (cr : bool) (w : World) :
  ev <> Join (dir a) (str ".watch") -> matchInverted ev (ig a) = false ->
  onEvent env a ev cr w = Ret tt w.
Proof.
  intros Hne Hm. unfold onEvent. rewrite bool_decide_eq_false_2 by exact Hne.
  rewrite Hm. rewrite andb_false_r. destruct cr; reflexivity.
Qed.

Lemma onEvent_unmatched_witness :
  onEvent (env_at 0) hello_app (str "/t/hello/src") true hello_world = Ret tt hello_world.
Proof.
  apply onEvent_unmatched; [vm_compute; discriminate|reflexivity].
Defined.

(** *** The reapers *)

Section ReaperLoops.

Lemma reap_loop_none (tm : Z) (l : list (gostring * appInfo)) (w : World) :
  Forall (fun ka => (tm - t (snd ka) <= idleTTL)%Z) l -> reap_loop tm l w = Ret tt w.
Proof.
  induction l as [|[k a] rest IH]; intros Hl; [reflexivity|].
  inversion Hl as [|? ? Ha Hrest]; subst. cbn [reap_loop].
  rewrite bool_decide_eq_false_2 by (cbn in Ha; lia).
  rewrite (bind_Ret_eq _ _ w tt w) by reflexivity. apply IH. exact Hrest.
Qed.

Definition idle_at (tm : Z) (k : gostring) (ka : gostring * appInfo) : bool :=
  bool_decide (fst ka = k) && bool_decide (tm - t (snd ka) > idleTTL)%Z.

Lemma reap_loop_v0_spec (tm : Z) (l : list (gostring * appInfo)) (w : World) :
  exists w', reap_loop_v0 tm l w = Ret tt w' /\ mu w' = mu w /\
    (forall k, apps w' !! k = if existsb (idle_at tm k) l then None else apps w !! k) /\
    (forall ka, In ka l -> (tm - t (snd ka) > idleTTL)%Z ->
       (c (snd ka) ∉ live w') /\ Kill (c (snd ka)) ∈ trace w') /\
    live w' ⊆ live w /\ (exists sfx, trace w' = trace w ++ sfx).
Proof.
  revert w. induction l as [|[n a] rest IH]; intros w.
  - exists w. split; [reflexivity|]. split; [reflexivity|]. split; [reflexivity|].
    split; [intros ? []|]. split; [set_solver|]. exists []. rewrite app_nil_r. reflexivity.
  - cbn [reap_loop_v0]. case_bool_decide as Hi.
    + set (w2 := with_apps (delete n (apps w))
                   (log_action (Kill (c a)) (mkWorld (apps w) (mu w) (live w ∖ {[c a]})
                      (open_watchers w) (next_pid w) (next_wid w) (trace w)))).
      destruct (IH w2) as (w' & Hrun & Hmu & Happs & Hkill & Hlive & sfx & Htr).
      exists w'. split.
      { unfold mbind at 1, M_bind at 1, kill, modify at 1. cbn.
        unfold mbind at 1, M_bind at 1. exact Hrun. }
      split; [exact Hmu|]. split; [|split; [|split]].
      * intros k. rewrite Happs. cbn [existsb].
        change (idle_at tm k (n, a)) with (bool_decide (n = k) && bool_decide (tm - t a > idleTTL)%Z).
        rewrite (bool_decide_eq_true_2 (tm - t a > idleTTL)%Z) by exact Hi.
        destruct (existsb (idle_at tm k) rest); [case_bool_decide; reflexivity|].
        cbn. case_bool_decide as Hk.
        -- subst. apply lookup_delete_eq.
        -- apply lookup_delete_ne. exact Hk.
      * intros ka [<-|Hin] Hka.
        -- split.
           ++ intros Hc. apply Hlive in Hc. cbn in Hc. set_solver.
           ++ rewrite Htr. cbn. apply elem_of_app. left. apply elem_of_app. right. set_solver.
        -- apply Hkill; assumption.
      * intros x Hx. apply Hlive in Hx. cbn in Hx. set_solver.
      * exists ([Kill (c a)] ++ sfx). rewrite Htr. cbn. rewrite <- app_assoc. reflexivity.
    + destruct (IH w) as (w' & Hrun & Hmu & Happs & Hkill & Hlive & Htr).
      exists w'. split.
      { rewrite (bind_Ret_eq _ _ w tt w) by reflexivity. exact Hrun. }
      split; [exact Hmu|]. split; [|split; [|split; [exact Hlive|exact Htr]]].
      * intros k. rewrite Happs. cbn [existsb].
        change (idle_at tm k (n, a)) with (bool_decide (n = k) && bool_decide (tm - t a > idleTTL)%Z).
        rewrite (bool_decide_eq_false_2 (tm - t a > idleTTL)%Z) by exact Hi.
        rewrite andb_false_r. reflexivity.
      * intros ka [<-|Hin] Hka; [cbn in Hka; contradiction|]. apply Hkill; assumption.
Qed.

End ReaperLoops.

(** X: while no record has been idle for more than [idleTTL] (a record
    last used exactly [idleTTL] ago is not idle yet), a tick of
    part_000's reaper takes [mu], stops nothing and releases it, leaving
    the state unchanged. *)
Theorem reaper_tick_no_idle (env : Env) (w : World) :
  mu w = false ->
  (forall k a, apps w !! k = Some a -> (now env - t a <= idleTTL)%Z) ->
  reaper_tick env w = Ret tt w.
Proof.
  intros Hmu Hall. unfold reaper_tick.
  rewrite (bind_Ret_eq _ _ w tt _ (Lock_unlocked w Hmu)).
  unfold gets. rewrite (bind_Ret_eq _ _ _ (apps w) (with_mu true w)) by reflexivity.
  rewrite (bind_Ret_eq _ _ _ tt (with_mu true w)).
  - destruct w as [ap m lv ow np nw tr]. cbn in Hmu. subst m. reflexivity.
  - apply reap_loop_none. apply Forall_forall. intros [k a] Hin.
    rewrite elem_of_map_to_list in Hin. exact (Hall k a Hin).
Qed.

Lemma reaper_tick_no_idle_witness : reaper_tick (env_at 600) hello_world = Ret tt hello_world.
Proof.
  apply reaper_tick_no_idle; [reflexivity|].
  intros k a Hk. unfold hello_world in Hk. cbn [apps] in Hk.
  apply lookup_singleton_Some in Hk as [_ <-]. vm_compute. discriminate.
Defined.

Lemma reaper_tick_v0_run (env : Env) (w : World) :
  mu w = false ->
  exists w', reaper_tick_v0 env w = Ret tt w' /\ mu w' = false /\
    (forall k, apps w' !! k =
       match apps w !! k with
       | Some a => if bool_decide (now env - t a > idleTTL)%Z then None else Some a
       | None => None
       end) /\
    (forall k a, apps w !! k = Some a -> (now env - t a > idleTTL)%Z ->
       (c a ∉ live w') /\ Kill (c a) ∈ trace w').
Proof.
  intros Hmu. unfold reaper_tick_v0.
  rewrite (bind_Ret_eq _ _ w tt _ (Lock_unlocked w Hmu)).
  unfold gets. rewrite (bind_Ret_eq _ _ _ (apps w) (with_mu true w)) by reflexivity.
  destruct (reap_loop_v0_spec (now env) (map_to_list (apps w)) (with_mu true w))
    as (w' & Hrun & _ & Happs & Hkill & _).
  rewrite (bind_Ret_eq _ _ _ _ _ Hrun).
  eexists. split; [reflexivity|]. split; [reflexivity|]. split.
  - intros k. cbn [apps with_mu]. rewrite Happs. cbn [apps with_mu].
    destruct (existsb (idle_at (now env) k) (map_to_list (apps w))) eqn:He.
    + apply existsb_exists in He as ([k' a'] & Hin & Hid).
      unfold idle_at in Hid. cbn [fst snd] in Hid.
      apply andb_true_iff in Hid as [Hk Hid]. apply bool_decide_eq_true_1 in Hk. subst k'.
      rewrite <- list_elem_of_In, elem_of_map_to_list in Hin. rewrite Hin. rewrite Hid. reflexivity.
    + destruct (apps w !! k) as [a|] eqn:Ha; [|reflexivity].
      case_bool_decide as Hid; [|reflexivity].
      exfalso. assert (existsb (idle_at (now env) k) (map_to_list (apps w)) = true) as Ht.
      { apply existsb_exists. exists (k, a). split.
        - apply list_elem_of_In, elem_of_map_to_list. exact Ha.
        - unfold idle_at. cbn [fst snd]. rewrite !bool_decide_eq_true_2 by (auto || lia). reflexivity. }
      congruence.
  - intros k a Ha Hid. cbn [live trace with_mu].
    apply (Hkill (k, a)); [|exact Hid].
    apply list_elem_of_In, elem_of_map_to_list. exact Ha.
Qed.

(** X: a tick of main.go's reaper (which kills and deletes inline, and
    does not call a locking stop) completes and releases [mu]; afterwards
    the registry holds exactly the records that were not idle, and the
    child of every idle record has been killed. *)
Theorem reaper_tick_v0_reaps (env : Env) (w : World) :
  mu w = false ->
  exists w', reaper_tick_v0 env w = Ret tt w' /\ mu w' = false /\
    (forall k, apps w' !! k =
       match apps w !! k with
       | Some a => if bool_decide (now env - t a > idleTTL)%Z then None else Some a
       | None => None
       end) /\
    (forall k a, apps w !! k = Some a -> (now env - t a > idleTTL)%Z ->
       (c a ∉ live w') /\ Kill (c a) ∈ trace w').
Proof. exact (reaper_tick_v0_run env w). Qed.

Lemma reaper_tick_v0_reaps_witness :
  exists w', reaper_tick_v0 (env_at 660) hello_world = Ret tt w' /\ mu w' = false /\
    (forall k, apps w' !! k =
       match apps hello_world !! k with
       | Some a => if bool_decide (now (env_at 660) - t a > idleTTL)%Z then None else Some a
       | None => None
       end) /\
    (forall k a, apps hello_world !! k = Some a -> (now (env_at 660) - t a > idleTTL)%Z ->
       (c a ∉ live w') /\ Kill (c a) ∈ trace w').
Proof. apply reaper_tick_v0_reaps. reflexivity. Defined.

(** *** Argument parsing, root directory and the watcher walk *)

Section WalkFacts.

Lemma HasPrefix_cons_self (x : ascii) (s : gostring) : HasPrefix (x :: s) [x] = true.
Proof. unfold HasPrefix. apply bool_decide_eq_true_2. reflexivity. Qed.

Lemma HasPrefix_slash_inv (s : gostring) : HasPrefix s [slash] = true -> exists s', s = slash :: s'.
Proof.
  unfold HasPrefix. intros H. apply bool_decide_eq_true_1 in H.
  destruct s as [|x s']; [discriminate|]. cbn in H. injection H as ->. eauto.
Qed.

Lemma Clean_rooted (p : gostring) : HasPrefix p [slash] = true -> HasPrefix (Clean p) [slash] = true.
Proof. intros H. unfold Clean. rewrite H. apply HasPrefix_cons_self. Qed.

Lemma Join_rooted (a b : gostring) : HasPrefix a [slash] = true -> HasPrefix (Join a b) [slash] = true.
Proof.
  intros Ha. destruct (HasPrefix_slash_inv a Ha) as [a' ->].
  unfold Join. destruct b as [|y b].
  - apply Clean_rooted, HasPrefix_cons_self.
  - apply Clean_rooted. cbn [app]. apply HasPrefix_cons_self.
Qed.

Definition fstree_ind' (P : fstree -> Prop)
  (Hd : forall n kids, Forall P kids -> P (FDir n kids))
  (Hf : forall n, P (FFile n)) : forall t, P t :=
  fix rec t :=
    match t with
    | FFile n => Hf n
    | FDir n kids =>
        Hd n kids ((fix go (ks : list fstree) : Forall P ks :=
                      match ks with
                      | [] => Forall_nil_2 P
                      | k :: ks' => Forall_cons_2 P k ks' (rec k) (go ks')
                      end) kids)
    end.

Lemma walk_add_all_ok (path : gostring) (t : fstree) :
  snd (walk_add (fun _ => true) path t) = false.
Proof.
  revert path. induction t as [n kids IH|n] using fstree_ind'; intros path; [|reflexivity].
  cbn [walk_add]. destruct (HasPrefix n [dot]); [reflexivity|].
  assert (Hs : snd (walk_seq (fun k => walk_add (fun _ => true) (Join path (node_name k)) k) kids) = false).
  { induction kids as [|k kids IHk]; [reflexivity|].
    apply Forall_cons_1 in IH as [Hk IH]. cbn [walk_seq].
    destruct (walk_add _ _ k) as [a e] eqn:Ha. specialize (Hk (Join path (node_name k))).
    rewrite Ha in Hk. cbn in Hk. subst e.
    specialize (IHk IH). destruct (walk_seq _ kids) as [b e']. exact IHk. }
  destruct (walk_seq _ kids) as [b e']. exact Hs.
Qed.

Lemma walk_add_dir (path n : gostring) (kids : list fstree) :
  fst (walk_add (fun _ => true) path (FDir n kids)) =
    if HasPrefix n [dot] then []
    else path :: flat_map (fun k => fst (walk_add (fun _ => true) (Join path (node_name k)) k)) kids.
Proof.
  cbn [walk_add]. destruct (HasPrefix n [dot]); [reflexivity|].
  assert (Hs : walk_seq (fun k => walk_add (fun _ => true) (Join path (node_name k)) k) kids =
               (flat_map (fun k => fst (walk_add (fun _ => true) (Join path (node_name k)) k)) kids, false)).
  { induction kids as [|k kids IHk]; [reflexivity|]. cbn [walk_seq flat_map].
    pose proof (walk_add_all_ok (Join path (node_name k)) k) as Hk.
    destruct (walk_add _ _ k) as [a e]. cbn in Hk |- *. subst e. rewrite IHk. reflexivity. }
  rewrite Hs. reflexivity.
Qed.

Lemma take_while_app {A} (f : A -> bool) (a b : list A) :
  take_while f (a ++ b) = if forallb f a then a ++ take_while f b else take_while f a.
Proof.
  induction a as [|x a IH]; [reflexivity|]. cbn. destruct (f x); cbn; [|reflexivity].
  rewrite IH. destruct (forallb f a); reflexivity.
Qed.

Lemma take_while_all {A} (f : A -> bool) (a : list A) : forallb f a = true -> take_while f a = a.
Proof.
  induction a as [|x a IH]; [reflexivity|]. cbn. destruct (f x); [|discriminate].
  intros H. rewrite IH by exact H. reflexivity.
Qed.

Lemma walk_seq_prefix (ok : gostring -> bool) (f : fstree -> list gostring * bool)
    (g : fstree -> list gostring) (kids : list fstree) :
  Forall (fun k => f k = (take_while ok (g k), negb (forallb ok (g k)))) kids ->
  walk_seq f kids = (take_while ok (flat_map g kids), negb (forallb ok (flat_map g kids))).
Proof.
  induction kids as [|k kids IH]; intros Hall; [reflexivity|].
  apply Forall_cons_1 in Hall as [Hk Hall]. cbn [walk_seq flat_map]. rewrite Hk.
  rewrite take_while_app, forallb_app.
  destruct (forallb ok (g k)) eqn:Hf; cbn [negb andb].
  - rewrite (IH Hall), (take_while_all ok (g k) Hf). reflexivity.
  - reflexivity.
Qed.

End WalkFacts.

(** X: main.go's [domain:port] argument: without a ':' indexing
    [parts[1]] panics; otherwise the domain is the text before the first
    ':', the port the text up to the next ':' (anything after a second
    ':' is ignored), and an empty port becomes "80". *)
Theorem parse_domain_port_spec :
  (forall arg, ~ In colon arg -> parse_domain_port arg = None) /\
  (forall dm pt r, ~ In colon dm -> ~ In colon pt ->
     parse_domain_port (dm ++ colon :: pt) =
       Some (dm, if bool_decide (pt = []) then str "80" else pt) /\
     parse_domain_port (dm ++ colon :: pt ++ colon :: r) =
       Some (dm, if bool_decide (pt = []) then str "80" else pt)).
Proof.
  split.
  - intros arg Hc. unfold parse_domain_port. rewrite Split_no_sep by exact Hc. reflexivity.
  - intros dm pt r Hd Hp. unfold parse_domain_port. split.
    + rewrite Split_app_sep by exact Hd. rewrite Split_no_sep by exact Hp. reflexivity.
    + rewrite Split_app_sep by exact Hd. rewrite Split_app_sep by exact Hp. reflexivity.
Qed.

Lemma parse_domain_port_spec_witness :
  parse_domain_port (str "example.com") = None /\
  parse_domain_port (str "example.com" ++ colon :: []) = Some (str "example.com", str "80") /\
  parse_domain_port (str "localhost" ++ colon :: str "8080" ++ colon :: str "x") =
    Some (str "localhost", str "8080").
Proof.
  destruct parse_domain_port_spec as [Hnone Hsome].
  split; [apply Hnone; vm_compute; intuition discriminate|].
  split.
  - rewrite (proj1 (Hsome (str "example.com") [] [] ltac:(vm_compute; intuition discriminate)
                      ltac:(vm_compute; intuition discriminate))).
    reflexivity.
  - rewrite (proj2 (Hsome (str "localhost") (str "8080") (str "x")
                      ltac:(vm_compute; intuition discriminate)
                      ltac:(vm_compute; intuition discriminate))).
    reflexivity.
Defined.

(** X: when the working directory is absolute, part_000's main serves
    from an absolute root whatever the -dir flag is: relative,
    [~]-prefixed (even with a relative [$HOME]) or absolute. *)
Theorem main_root_absolute (home cwd dirFlag : gostring) :
  HasPrefix cwd [slash] = true -> HasPrefix (main_root home cwd dirFlag) [slash] = true.
Proof.
  intros Hcwd. unfold main_root, Abs.
  set (r := if HasPrefix dirFlag (str "~") then Join home (skipn 1 dirFlag) else dirFlag).
  destruct (HasPrefix r [slash]) eqn:Hr.
  - apply Clean_rooted. exact Hr.
  - apply Join_rooted. exact Hcwd.
Qed.

Lemma main_root_absolute_witness :
  HasPrefix (main_root (str "home/u") (str "/srv") (str "~/Web")) [slash] = true.
Proof. apply main_root_absolute. reflexivity. Defined.

(** X: on a readable tree, [addRecursive] visits the directories in
    walk order, reached from the root through directories whose names do
    not start with '.' (a dot directory and everything below it is never
    watched, files are never added), and adds them until the first
    [w.Add] that fails: those before it are watched, the failing one and
    all after it are not, and the walk returns the error. *)
Theorem walk_add_visible (ok : gostring -> bool) (t : fstree) (path : gostring) :
  walk_add ok path t =
    (take_while ok (fst (walk_add (fun _ => true) path t)),
     negb (forallb ok (fst (walk_add (fun _ => true) path t)))) /\
  (forall p, In p (fst (walk_add (fun _ => true) path t)) <-> visible path t p).
Proof.
  split.
  - revert path. induction t as [n kids IH|n] using fstree_ind'; intros path; [|reflexivity].
    rewrite walk_add_dir. cbn [walk_add].
    destruct (HasPrefix n [dot]); [reflexivity|].
    cbn [take_while forallb]. destruct (ok path); cbn [andb negb]; [|reflexivity].
    rewrite (walk_seq_prefix ok _ (fun k => fst (walk_add (fun _ => true) (Join path (node_name k)) k))).
    + reflexivity.
    + rewrite Forall_forall in IH |- *. intros k Hk. apply IH. exact Hk.
  - revert path. induction t as [n kids IH|n] using fstree_ind'; intros path p.
    + rewrite walk_add_dir. destruct (HasPrefix n [dot]) eqn:Hh.
      * split; [intros []|intros Hv; inversion Hv; congruence].
      * cbn [In]. rewrite in_flat_map. split.
        -- intros [<-|(k & Hk & Hin)]; [constructor; exact Hh|].
           apply (visible_below path n kids k p Hh Hk).
           rewrite Forall_forall in IH. apply (IH k); [apply list_elem_of_In; exact Hk|exact Hin].
        -- intros Hv. inversion Hv as [? ? ? Hh'|? ? ? k ? Hh' Hk Hvk]; subst; [left; reflexivity|].
           right. exists k. split; [exact Hk|].
           rewrite Forall_forall in IH. apply (IH k); [apply list_elem_of_In; exact Hk|exact Hvk].
    + cbn [walk_add fst In]. split; [intros []|intros Hv; inversion Hv].
Qed.

(** *** What the handlers change *)

Section Frame.

(** A computation that, when it returns, leaves the map and [mu] as it
    found them. *)
Definition keeps {A} (m : M A) : Prop :=
  forall w x w', m w = Ret x w' -> apps w' = apps w /\ mu w' = mu w.

Lemma keeps_ret {A} (x : A) : keeps (mret x).
Proof. intros w y w' H. injection H as _ <-. auto. Qed.

Lemma keeps_bind {A B} (m : M A) (k : A -> M B) :
  keeps m -> (forall x, keeps (k x)) -> keeps (m ≫= k).
Proof.
  intros Hm Hk w y w' H. apply bind_Ret in H as (v & w1 & H1 & H2).
  destruct (Hm _ _ _ H1) as [Ha1 Hm1]. destruct (Hk _ _ _ _ H2) as [Ha2 Hm2].
  split; congruence.
Qed.

Lemma keeps_freePort (env : Env) : keeps (freePort env).
Proof. unfold freePort. destruct (listen env); [apply keeps_ret|]. intros w x w' H. discriminate. Qed.

Lemma keeps_spawn (d cmd : gostring) (fp : Z) : keeps (spawn d cmd fp).
Proof. intros w x w' H. injection H as _ <-. auto. Qed.

Lemma keeps_new_watcher : keeps new_watcher.
Proof. intros w x w' H. injection H as _ <-. auto. Qed.

Lemma fold_WatchAdd_keeps (wid : nat) (l : list gostring) (w : World) :
  apps (fold_left (fun w' d => log_action (WatchAdd wid d) w') l w) = apps w /\
  mu (fold_left (fun w' d => log_action (WatchAdd wid d) w') l w) = mu w.
Proof.
  revert w. induction l as [|d l IH]; intros w; [auto|].
  cbn [fold_left]. destruct (IH (log_action (WatchAdd wid d) w)) as [H1 H2].
  rewrite H1, H2. auto.
Qed.

Lemma keeps_addRecursive (env : Env) (wid : nat) (path : gostring) : keeps (addRecursive env wid path).
Proof.
  intros w x w' H. unfold addRecursive in H.
  case_bool_decide; injection H as _ <-; [apply fold_WatchAdd_keeps|auto].
Qed.

Lemma keeps_startWatcher (env : Env) (a : appInfo) : keeps (startWatcher env a).
Proof.
  unfold startWatcher. destruct (watcher_ok env); [|intros w x w' H; discriminate].
  apply keeps_bind; [apply keeps_new_watcher|intros wid].
  apply keeps_bind; [apply keeps_addRecursive|intros _; apply keeps_ret].
Qed.

Lemma keeps_start (env : Env) (nm : gostring) : keeps (start env nm).
Proof.
  unfold start. destruct (readProcfile _ _); [apply keeps_ret|].
  apply keeps_bind; [apply keeps_freePort|intros fp].
  destruct (cmd_start_ok env); [|apply keeps_ret].
  apply keeps_bind; [apply keeps_spawn|intros pid].
  destruct (port_ready env fp); [|apply keeps_ret].
  apply keeps_bind; [apply keeps_startWatcher|intros; apply keeps_ret].
Qed.

Lemma keeps_start_v0 (env : Env) (nm : gostring) : keeps (start_v0 env nm).
Proof.
  unfold start_v0. destruct (read_file env _); [|apply keeps_ret].
  case_bool_decide; [apply keeps_ret|].
  apply keeps_bind; [apply keeps_freePort|intros fp].
  destruct (cmd_start_ok env); [|apply keeps_ret].
  apply keeps_bind; [apply keeps_spawn|intros pid].
  destruct (port_ready env fp); apply keeps_ret.
Qed.

Ltac lock_gets H Hmu :=
  let u := fresh "u" in let w1 := fresh "w" in let HL := fresh "HL" in
  let m := fresh "m" in let w2 := fresh "w" in let HG := fresh "HG" in
  apply bind_Ret in H as (u & w1 & HL & H);
  rewrite (Lock_unlocked _ Hmu) in HL; injection HL as <- <-;
  apply bind_Ret in H as (m & w2 & HG & H);
  unfold gets in HG; injection HG as <- <-; cbn [apps with_mu] in H.

Ltac finish_ret H :=
  unfold mbind, M_bind, modify, touch, Unlock, mret, M_ret in H; cbn in H; injection H as <- <-.

(** part_000's handler, returning normally from an unlocked state:
    [mu] is free again, only the entry of the requested name may have
    changed, and a proxied answer leaves a record for the name used now
    whose proxy is the one answered with. *)
Lemma handler_inv (env : Env) (host : gostring) (w : World) (r : resp) (w1 : World) :
  mu w = false -> handler env host w = Ret r w1 ->
  mu w1 = false /\
  (forall k, k <> routeName (domain env) host -> apps w1 !! k = apps w !! k) /\
  (forall port, r = Proxied port ->
     exists a, apps w1 !! routeName (domain env) host = Some a /\ t a = now env /\ p a = port).
Proof.
  intros Hmu H. unfold handler in H.
  set (nm := routeName (domain env) host) in *.
  destruct (is_dir env _); cbn [negb] in H;
    [|injection H as <- <-; split; [exact Hmu|split; [reflexivity|discriminate]]].
  destruct (exists_file env _); cbn [negb] in H;
    [|injection H as <- <-; split; [exact Hmu|split; [reflexivity|discriminate]]].
  lock_gets H Hmu.
  destruct (apps w !! nm) as [a|] eqn:Ha.
  - finish_ret H. cbn. split; [reflexivity|]. split.
    + intros k Hk. rewrite lookup_insert_ne by congruence. reflexivity.
    + intros port [= <-]. exists (set_t a (now env)). rewrite lookup_insert_eq. auto.
  - apply bind_Ret in H as (r0 & w3 & HS & H).
    destruct (keeps_start env nm _ _ _ HS) as [Ha3 Hm3]. cbn [apps mu with_mu] in Ha3, Hm3.
    destruct r0 as [e|a].
    + finish_ret H. cbn. split; [reflexivity|]. split; [intros k _; exact (f_equal (lookup k) Ha3)|discriminate].
    + finish_ret H. cbn. split; [reflexivity|]. split.
      * intros k Hk. rewrite lookup_insert_ne by congruence. rewrite lookup_insert_ne by congruence.
        rewrite Ha3. reflexivity.
      * intros port [= <-]. exists (set_t a (now env)). rewrite lookup_insert_eq. auto.
Qed.

(** The same for main.go's handler. *)
Lemma handler_v0_inv (env : Env) (host : gostring) (w : World) (r : resp_v0) (w1 : World) :
  mu w = false -> handler_v0 env host w = Ret r w1 ->
  mu w1 = false /\
  (forall k, k <> routeName (domain env) host -> apps w1 !! k = apps w !! k) /\
  (forall port, r = Proxied0 port ->
     exists a, apps w1 !! routeName (domain env) host = Some a /\ t a = now env /\ p a = port).
Proof.
  intros Hmu H. unfold handler_v0 in H.
  set (nm := routeName (domain env) host) in *.
  destruct (is_dir env _); cbn [negb] in H;
    [|injection H as <- <-; split; [exact Hmu|split; [reflexivity|discriminate]]].
  destruct (exists_file env _); cbn [negb] in H;
    [|injection H as <- <-; split; [exact Hmu|split; [reflexivity|discriminate]]].
  lock_gets H Hmu.
  destruct (apps w !! nm) as [a|] eqn:Ha.
  - finish_ret H. cbn. split; [reflexivity|]. split.
    + intros k Hk. rewrite lookup_insert_ne by congruence. reflexivity.
    + intros port [= <-]. exists (set_t a (now env)). rewrite lookup_insert_eq. auto.
  - apply bind_Ret in H as (r0 & w3 & HS & H).
    destruct (keeps_start_v0 env nm _ _ _ HS) as [Ha3 Hm3]. cbn [apps mu with_mu] in Ha3, Hm3.
    destruct r0 as [e|[fp pid]].
    + finish_ret H. cbn. split; [reflexivity|]. split; [intros k _; exact (f_equal (lookup k) Ha3)|discriminate].
    + finish_ret H. cbn. split; [reflexivity|]. split.
      * intros k Hk. rewrite lookup_insert_ne by congruence. rewrite Ha3. reflexivity.
      * intros port [= <-]. eexists. rewrite lookup_insert_eq. auto.
Qed.

End Frame.

(** X: part_000's handler, when it returns from a state where [mu] is
    free, has released [mu] again and changed no entry of the map but
    the requested name's; when it answers by proxying to [port], the
    name's record is in the map, last used now, with that proxy. *)
Theorem handler_frame (env : Env) (host : gostring) (w : World) (r : resp) (w1 : World) :
  mu w = false -> handler env host w = Ret r w1 ->
  mu w1 = false /\
  (forall k, k <> routeName (domain env) host -> apps w1 !! k = apps w !! k) /\
  (forall port, r = Proxied port ->
     exists a, apps w1 !! routeName (domain env) host = Some a /\ t a = now env /\ p a = port).
Proof. exact (handler_inv env host w r w1). Qed.

Lemma handler_frame_witness :
  exists r w1, handler (ready_env 4001) (str "hello.localhost") init_world = Ret r w1 /\
  mu w1 = false /\
  (forall k, k <> routeName (domain (ready_env 4001)) (str "hello.localhost") ->
     apps w1 !! k = apps init_world !! k) /\
  (forall port, r = Proxied port ->
     exists a, apps w1 !! routeName (domain (ready_env 4001)) (str "hello.localhost") = Some a /\
       t a = now (ready_env 4001) /\ p a = port).
Proof.
  destruct (handler (ready_env 4001) (str "hello.localhost") init_world) as [r w1| |] eqn:E;
    [|vm_compute in E; discriminate|vm_compute in E; discriminate].
  exists r, w1. split; [reflexivity|].
  apply (handler_frame (ready_env 4001) (str "hello.localhost") init_world r w1); [reflexivity|exact E].
Defined.

(** X: main.go's handler keeps the same discipline: returning from a
    state where [mu] is free, it has released [mu], changed no entry
    but the requested name's, and a proxied answer leaves the name's
    record, last used now, with the proxy answered with. *)
Theorem handler_v0_frame (env : Env) (host : gostring) (w : World) (r : resp_v0) (w1 : World) :
  mu w = false -> handler_v0 env host w = Ret r w1 ->
  mu w1 = false /\
  (forall k, k <> routeName (domain env) host -> apps w1 !! k = apps w !! k) /\
  (forall port, r = Proxied0 port ->
     exists a, apps w1 !! routeName (domain env) host = Some a /\ t a = now env /\ p a = port).
Proof. exact (handler_v0_inv env host w r w1). Qed.

Lemma handler_v0_frame_witness :
  exists r w1, handler_v0 (env_at 100) (str "hello.localhost") hello_world = Ret r w1 /\
  mu w1 = false /\
  (forall k, k <> routeName (domain (env_at 100)) (str "hello.localhost") ->
     apps w1 !! k = apps hello_world !! k) /\
  (forall port, r = Proxied0 port ->
     exists a, apps w1 !! routeName (domain (env_at 100)) (str "hello.localhost") = Some a /\
       t a = now (env_at 100) /\ p a = port).
Proof.
  destruct (handler_v0 (env_at 100) (str "hello.localhost") hello_world) as [r w1| |] eqn:E;
    [|vm_compute in E; discriminate|vm_compute in E; discriminate].
  exists r, w1. split; [reflexivity|].
  apply (handler_v0_frame (env_at 100) (str "hello.localhost") hello_world r w1); [reflexivity|exact E].
Defined.

(** X: main.go's handler on a first request whose Procfile has a [web:]
    command and whose [cmd.Start()] succeeds spawns one child in the app
    directory on the fresh port; when the port answers before the
    deadline it records the app (port, child, now) and proxies to it;
    when [waitPort] times out it answers 500 with the timeout, records
    nothing and leaves the child running.  Either way [mu] is released
    and no watcher is involved. *)
Theorem handler_v0_launch (env : Env) (host data : gostring) (fp : Z) (w : World) :
  is_dir env (appDir (root env) (domain env) host) = true ->
  exists_file env (Join (appDir (root env) (domain env) host) (str "Procfile")) = true ->
  read_file env (JoinAll [root env; routeName (domain env) host; str "Procfile"]) = Some data ->
  scan_web (ScanLines data) <> [] ->
  listen env = Some fp -> cmd_start_ok env = true ->
  mu w = false -> apps w !! routeName (domain env) host = None ->
  handler_v0 env host w =
  Ret (if port_ready env fp then Proxied0 fp else Error500_0 (E0Timeout fp))
    (mkWorld
       (if port_ready env fp
        then <[routeName (domain env) host :=
                 mkAppInfo (routeName (domain env) host) (appDir (root env) (domain env) host)
                   fp (next_pid w) (now env) 0 None]> (apps w)
        else apps w)
       false (live w ∪ {[next_pid w]}) (open_watchers w) (S (next_pid w)) (next_wid w)
       (trace w ++ [Spawn (next_pid w) (appDir (root env) (domain env) host)
                      (scan_web (ScanLines data)) fp])).
Proof.
  intros Hd Hpf Hr Hc Hl Hs Hmu Hn. unfold appDir in *. unfold handler_v0. cbv zeta.
  rewrite Hd, Hpf. cbn [negb].
  rewrite (bind_Ret_eq _ _ w tt _ (Lock_unlocked w Hmu)).
  unfold gets. rewrite (bind_Ret_eq _ _ _ (apps w) (with_mu true w)) by reflexivity.
  cbn [apps with_mu]. rewrite Hn.
  assert (HS : start_v0 env (routeName (domain env) host) (with_mu true w) =
    Ret (if port_ready env fp then inr (fp, next_pid w) else inl (E0Timeout fp))
      (mkWorld (apps w) true (live w ∪ {[next_pid w]}) (open_watchers w) (S (next_pid w))
         (next_wid w) (trace w ++ [Spawn (next_pid w) (Join (root env) (routeName (domain env) host))
                                     (scan_web (ScanLines data)) fp]))).
  { unfold start_v0. cbv zeta. rewrite Hr. rewrite bool_decide_eq_false_2 by exact Hc.
    rewrite (bind_Ret_eq _ _ _ fp (with_mu true w)) by (unfold freePort; rewrite Hl; reflexivity).
    cbv beta. rewrite Hs.
    erewrite (bind_Ret_eq (spawn _ _ fp)) by reflexivity.
    cbv beta. destruct (port_ready env fp); reflexivity. }
  rewrite (bind_Ret_eq _ _ _ _ _ HS). destruct (port_ready env fp); reflexivity.
Qed.

Lemma handler_v0_launch_witness :
  handler_v0 (slow_env 4000) (str "hello.localhost") init_world =
  Ret (Error500_0 (E0Timeout 4000))
    (mkWorld ∅ false (∅ ∪ {[0]}) ∅ 1 0 ([] ++ [Spawn 0 (str "/t/hello") (str "sleep 60") 4000])).
Proof.
  refine (handler_v0_launch (slow_env 4000) (str "hello.localhost") (str "web: sleep 60") 4000 init_world
            _ _ _ _ _ _ _ _); vm_compute; try reflexivity. discriminate.
Defined.

(** X: a request answered by main.go's handler, composed with a later
    tick of main.go's reaper: the tick completes and releases [mu]; if
    at most [idleTTL] has passed since the request the name's record
    (with the proxy answered with) survives, otherwise it is removed
    and its child has been killed. *)
Theorem request_then_reap_v0 (env env' : Env) (host : gostring) (w w1 : World) (port : Z) :
  mu w = false -> handler_v0 env host w = Ret (Proxied0 port) w1 ->
  exists w2, reaper_tick_v0 env' w1 = Ret tt w2 /\ mu w2 = false /\
    ((now env' - now env <= idleTTL)%Z ->
       exists a, apps w2 !! routeName (domain env) host = Some a /\ p a = port /\ t a = now env) /\
    ((now env' - now env > idleTTL)%Z ->
       apps w2 !! routeName (domain env) host = None /\
       exists a, apps w1 !! routeName (domain env) host = Some a /\ p a = port /\
         Kill (c a) ∈ trace w2).
Proof.
  intros Hmu H. destruct (handler_v0_inv env host w _ w1 Hmu H) as (Hmu1 & _ & Hp).
  destruct (Hp port eq_refl) as (a & Ha & Hta & Hpa).
  destruct (reaper_tick_v0_run env' w1 Hmu1) as (w2 & Hrun & Hmu2 & Happs & Hkill).
  exists w2. split; [exact Hrun|]. split; [exact Hmu2|]. split.
  - intros Hle. exists a. rewrite Happs, Ha. rewrite bool_decide_eq_false_2 by lia. auto.
  - intros Hgt. split; [rewrite Happs, Ha; rewrite bool_decide_eq_true_2 by lia; reflexivity|].
    exists a. split; [exact Ha|]. split; [exact Hpa|]. apply (Hkill _ a Ha). lia.
Qed.

(** [hello] launched by main.go's handler at time 0 on port 4001. *)
Definition served_v0 : World :=
  mkWorld {[str "hello" := mkAppInfo (str "hello") (str "/t/hello") 4001 0 0 0 None]} false
    {[0]} ∅ 1 0 [Spawn 0 (str "/t/hello") (str "./run") 4001].

Lemma request_then_reap_v0_witness :
  handler_v0 (ready_env 4001) (str "hello.localhost") init_world = Ret (Proxied0 4001) served_v0 /\
  exists w2, reaper_tick_v0 (env_at 700) served_v0 = Ret tt w2 /\ mu w2 = false /\
    ((now (env_at 700) - now (ready_env 4001) <= idleTTL)%Z ->
       exists a, apps w2 !! routeName (domain (ready_env 4001)) (str "hello.localhost") = Some a /\
         p a = 4001%Z /\ t a = now (ready_env 4001)) /\
    ((now (env_at 700) - now (ready_env 4001) > idleTTL)%Z ->
       apps w2 !! routeName (domain (ready_env 4001)) (str "hello.localhost") = None /\
       exists a, apps served_v0 !! routeName (domain (ready_env 4001)) (str "hello.localhost") = Some a /\
         p a = 4001%Z /\ Kill (c a) ∈ trace w2).
Proof.
  assert (H : handler_v0 (ready_env 4001) (str "hello.localhost") init_world = Ret (Proxied0 4001) served_v0)
    by (vm_compute; reflexivity).
  split; [exact H|].
  apply (request_then_reap_v0 (ready_env 4001) (env_at 700) (str "hello.localhost") init_world served_v0 4001);
    [reflexivity|exact H].
Defined.
